(** * NTFSfixer: the bad-block range processor of [main.py]

    A shallow embedding of the arithmetic core of [main.py]
    ([parse_blocks], [invert_blocks], [create_ranges], [block_to_sector])
    and of the part of [main] that leads to the first two output files,
    followed by the properties the design document states about them.

    Conventions of the embedding.
    - A Python [int] is a [Z]; integers are unbounded.  Conversions between
      [int] and [str] raise [ValueError] beyond [max_str_digits] digits,
      the interpreter's limit at its default value of 4300.
    - A Python [str] is a [string] whose characters are the code points
      U+0000 .. U+00FF (the one-byte kind of Python strings); the character
      classes below are Python's, restricted to that range.
    - A Python [set] of integers is a [gset Z]; a Python list is a [list].
    - Operations that can raise do so in the monad [result]; functions with
      no raising operation are plain functions.
    - Floating-point values are not modelled, only whether computing them
      raises: the statistics [main] prints convert integers to floats,
      which fails with [OverflowError] on integers too large for a float.
      Apart from that, console output ([print]) is not part of the model. *)

From Stdlib Require Import ZArith String Ascii DecimalString DecimalPos DecimalZ.
From stdpp Require Import base tactics option list list_numbers sorting gmap strings.

Local Open Scope string_scope.
Local Open Scope list_scope.
Local Open Scope Z_scope.

(** ** Exceptions *)

Inductive exn : Set :=
| ValueError
| IndexError
| ZeroDivisionError
| OverflowError.

Inductive result (A : Type) : Type :=
| Ok (a : A)
| Raise (e : exn).
Arguments Ok {A} a.
Arguments Raise {A} e.

Global Instance result_ret : MRet result := λ A a, Ok a.
Global Instance result_bind : MBind result := λ A B f m,
  match m with
  | Ok a => f a
  | Raise e => Raise e
  end.

(** [for x in xs: acc = body acc x], stopping at the first exception. *)
Fixpoint for_each {A B : Type} (body : B → A → result B) (acc : B) (xs : list A)
  : result B :=
  match xs with
  | [] => Ok acc
  | x :: xs' => acc' ← body acc x; for_each body acc' xs'
  end.

(** A loop that computes [f x] for each [x] of [xs] in turn and keeps the
    results, stopping at the first exception. *)
Fixpoint map_result {A B : Type} (f : A → result B) (xs : list A) : result (list B) :=
  match xs with
  | [] => Ok []
  | x :: xs' => y ← f x; ys ← map_result f xs'; Ok (y :: ys)
  end.

(** [xs[i]] for a non-negative literal index. *)
Definition index {A : Type} (xs : list A) (i : nat) : result A :=
  match xs !! i with
  | Some x => Ok x
  | None => Raise IndexError
  end.

(** ** Integers and sets *)

(** [range(n)]. *)
Definition range (n : Z) : list Z := seqZ 0 n.

(** [set(xs)]. *)
Definition set_of (xs : list Z) : gset Z := list_to_set xs.

(** [sorted(s)] for a set of integers. *)
Definition sorted (s : gset Z) : list Z := merge_sort Z.le (elements s).

(** ** [invert_blocks] (main.py, lines 17-20) *)

Definition invert_blocks (good_blocks : list Z) (total_blocks : Z) : list Z :=
  let good_set := set_of good_blocks in
  filter (λ b, b ∉ good_set) (range total_blocks).

(** ** Strings *)

(** The line feed character, ['\n']. *)
Definition LF : ascii := "010"%char.
Definition newline : string := String LF "".

Definition code (c : ascii) : N := N_of_ascii c.

Definition between (lo hi : N) (c : ascii) : bool :=
  ((lo <=? code c) && (code c <=? hi))%N.

(** [c.isspace()]: the white space of [str.split()] and [str.strip()]. *)
Definition isspace (c : ascii) : bool :=
  between 9 13 c || between 28 32 c || between 133 133 c || between 160 160 c.

(** Decimal digits, ['0'] .. ['9']. *)
Definition isdecimal (c : ascii) : bool := between 48 57 c.

(** [c.isdigit()]: among the characters up to U+00FF, the decimal digits
    and the superscript digits U+00B2, U+00B3 and U+00B9. *)
Definition isdigit (c : ascii) : bool :=
  isdecimal c || between 178 179 c || between 185 185 c.

(** The character U+00B2, SUPERSCRIPT TWO. *)
Definition superscript_two : ascii := "178"%char.

(** The white space [int()] skips around a number. *)
Definition isspace_int (c : ascii) : bool :=
  between 9 13 c || between 32 32 c || between 133 133 c || between 160 160 c.

Fixpoint lstrip_with (sp : ascii → bool) (s : string) : string :=
  match s with
  | "" => ""
  | String c r => if sp c then lstrip_with sp r else s
  end.

Fixpoint rstrip_with (sp : ascii → bool) (s : string) : string :=
  match s with
  | "" => ""
  | String c r =>
      match rstrip_with sp r with
      | "" => if sp c then "" else String c ""
      | r' => String c r'
      end
  end.

(** [s.strip()]. *)
Definition strip (s : string) : string := rstrip_with isspace (lstrip_with isspace s).

(** [s.split(sep)] for a one-character separator. *)
Fixpoint split_on (sep : ascii) (s : string) : list string :=
  match s with
  | "" => [""]
  | String c r =>
      if Ascii.eqb c sep then "" :: split_on sep r
      else match split_on sep r with
           | w :: ws => String c w :: ws
           | [] => [String c ""]
           end
  end.

(** [s.split()]: the maximal runs of characters that are not white space;
    [cur] is the run being read. *)
Fixpoint split_go (cur : string) (s : string) : list string :=
  match s with
  | "" => if cur is "" then [] else [cur]
  | String c r =>
      if isspace c then
        (if cur is "" then split_go "" r else cur :: split_go "" r)
      else split_go (cur +:+ String c "") r
  end.

Definition split (s : string) : list string := split_go "" s.

Fixpoint all_chars (p : ascii → bool) (s : string) : bool :=
  match s with
  | "" => true
  | String c r => p c && all_chars p r
  end.

(** [s.isdigit()]: at least one character, and all of them digits. *)
Definition str_isdigit (s : string) : bool :=
  match s with
  | "" => false
  | _ => all_chars isdigit s
  end.

(** The digits of an integer literal given to [int()]: decimal digits,
    with single underscores allowed between two digits. *)
Fixpoint int_digits (s : string) : option (list Z) :=
  match s with
  | "" => None
  | String c r =>
      if isdecimal c then
        let d := Z.of_N (code c) - 48 in
        match r with
        | "" => Some [d]
        | String c' r' =>
            if Ascii.eqb c' "_" then cons d <$> int_digits r'
            else cons d <$> int_digits r
        end
      else None
  end.

Definition digits_value (ds : list Z) : Z := foldl (λ acc d, 10 * acc + d) 0 ds.

(** The interpreter's limit on the number of digits in a conversion
    between [int] and [str] ([sys.get_int_max_str_digits()]), at its
    default value. *)
Definition max_str_digits : nat := 4300.

(** [int(s)]: white space around, an optional sign, then the digits, of
    which there may be at most [max_str_digits]. *)
Definition py_int (s : string) : result Z :=
  let t := rstrip_with isspace_int (lstrip_with isspace_int s) in
  let '(negative, body) :=
    match t with
    | "" => (false, t)
    | String c r =>
        if Ascii.eqb c "-" then (true, r)
        else if Ascii.eqb c "+" then (false, r)
        else (false, t)
    end in
  match int_digits body with
  | Some ds =>
      if decide (length ds ≤ max_str_digits)%nat then
        Ok (if negative : bool then - digits_value ds else digits_value ds)
      else Raise ValueError
  | None => Raise ValueError
  end.

(** The decimal numeral of an integer, with a minus sign if negative. *)
Definition decimal (n : Z) : string := NilZero.string_of_int (Z.to_int n).

(** The number of digits of that numeral, the sign not counted. *)
Definition num_digits (n : Z) : nat := String.length (decimal (Z.abs n)).

(** An integer of at most [max_str_digits] digits. *)
Definition printable (n : Z) : Prop := (num_digits n ≤ max_str_digits)%nat.

Global Instance printable_dec (n : Z) : Decision (printable n).
Proof. unfold printable. apply _. Defined.

(** [str(n)], also the rendering of [{n}] in an f-string: the decimal
    numeral, unless it has more than [max_str_digits] digits. *)
Definition py_str (n : Z) : result string :=
  if decide (printable n) then Ok (decimal n) else Raise ValueError.

(** [len(xs)]. *)
Definition len {A : Type} (xs : list A) : Z := Z.of_nat (length xs).

(** [sep.join(xs)]. *)
Definition join (sep : string) (xs : list string) : string := String.concat sep xs.

(** [a // b]. *)
Definition floordiv (a b : Z) : result Z :=
  if decide (b = 0) then Raise ZeroDivisionError else Ok (a `div` b).

(** Integers of magnitude [float_limit] and more do not convert to a float
    (they round to [2^1024]). *)
Definition float_limit : Z := 2 ^ 1024 - 2 ^ 970.

(** [float(n)], as it happens in [n / x] for a float [x]: the value is left
    out, the conversion raises beyond the range of floats. *)
Definition float_of_int (n : Z) : result () :=
  if decide (Z.abs n < float_limit) then Ok () else Raise OverflowError.

(** [a / b] for two integers: the value is left out, the division raises on
    a zero divisor and on a quotient beyond the range of floats. *)
Definition truediv (a b : Z) : result () :=
  if decide (b = 0) then Raise ZeroDivisionError
  else if decide (Z.abs a < float_limit * Z.abs b) then Ok ()
  else Raise OverflowError.

(** ** [parse_blocks] (main.py, lines 8-15) *)

Definition parse_line (blocks : list Z) (line : string) : result (list Z) :=
  let parts := split line in
  match parts with
  | [] => Ok blocks
  | _ :: _ =>
      p0 ← index parts 0;
      if str_isdigit p0 then n ← py_int p0; Ok (blocks ++ [n])
      else Ok blocks
  end.

Definition parse_blocks (data : string) : result (list Z) :=
  blocks ← for_each parse_line [] (split_on LF (strip data));
  Ok (sorted (set_of blocks)).

(** ** [create_ranges] (main.py, lines 22-38) *)

(** [f"{start}-{end}" if start != end else str(start)]. *)
Definition range_text (start end_ : Z) : result string :=
  if decide (start ≠ end_) then
    s ← py_str start; e ← py_str end_; Ok (s +:+ "-" +:+ e)
  else py_str start.

(** The variables of the loop: [ranges], [start] and [end]. *)
Record scan : Type := Scan { ranges : list string; start : Z; end_ : Z }.

Definition scan_step (st : scan) (block : Z) : result scan :=
  if decide (block = end_ st + 1) then
    Ok (Scan (ranges st) (start st) block)
  else
    t ← range_text (start st) (end_ st);
    Ok (Scan (ranges st ++ [t]) block block).

Definition create_ranges (blocks : list Z) : result (list string) :=
  match blocks with
  | [] => Ok []
  | _ :: _ =>
      b0 ← index blocks 0;
      st ← for_each scan_step (Scan [] b0 b0) (drop 1 blocks);
      t ← range_text (start st) (end_ st);
      Ok (ranges st ++ [t])
  end.

(** ** [block_to_sector] (main.py, lines 40-42) *)

Definition block_to_sector (block sectors_per_block : Z) : Z :=
  block * sectors_per_block.

(** ** [main] (main.py, lines 44-154) *)

(** The loop of lines 133-137: one sector range per bad block. *)
Definition sector_range (block sectors_per_block : Z) : Z * Z :=
  let sector_start := block_to_sector block sectors_per_block in
  let sector_end := block_to_sector (block + 1) sectors_per_block - 1 in
  (sector_start, sector_end).

Definition sector_ranges_of (bad_blocks : list Z) (sectors_per_block : Z) : list (Z * Z) :=
  foldl (λ sector_ranges block, sector_ranges ++ [sector_range block sectors_per_block])
        [] bad_blocks.

(** A line of [ntfsmarkbad_sectors.txt]: [f"{start} {end}\n"]. *)
Definition sector_line (r : Z * Z) : result string :=
  s ← py_str r.1; e ← py_str r.2; Ok (s +:+ " " +:+ e +:+ newline).

(** The two files written first. *)
Record files : Type := Files {
  ntfsmarkbad_sectors_txt : string;
  bad_block_ranges_txt : string
}.

(** How a run gets through lines 44-154: it ends at one of the three early
    [return]s, or it reaches the generation of the files and has written
    the first two of them, which are recorded.  What follows in [main]
    (the question about [badblocks_ext4.txt], the batch script, the
    README, the closing messages) is not part of [outcome]. *)
Inductive outcome : Type :=
| TotalSectorsRequired
| NoValidBlocks
| NoBadBlocks
| Generated (out : files).

(** Lines 44-154 of [main].  [total_sectors_line] and [total_blocks_line]
    are the answers to the two prompts, [lines] the pasted lines read until
    end of input.  The four float computations are those of the printed
    statistics (lines 71, 73, 120 and 126), kept for the exceptions they
    can raise.  The integers the [print] calls format are the two totals
    read by [int], their quotient, lengths of lists and a count that has
    been converted to a float before; [str] accepts them whenever the call
    is reached, so that these calls raise nothing. *)
Definition main (total_sectors_line total_blocks_line : string) (lines : list string)
  : result outcome :=
  let total_sectors_input := strip total_sectors_line in
  if total_sectors_input is "" then Ok TotalSectorsRequired else
  total_sectors ← py_int total_sectors_input;
  let total_blocks_input := strip total_blocks_line in
  total_blocks ← (if total_blocks_input is "" then Ok 10000 else py_int total_blocks_input);
  sectors_per_block ← floordiv total_sectors total_blocks;
  float_of_int (total_sectors * 512);;
  truediv (sectors_per_block * 512) 1024;;
  let data := join newline lines in
  good_blocks ← parse_blocks data;
  if good_blocks is [] then Ok NoValidBlocks else
  let bad_blocks := invert_blocks good_blocks total_blocks in
  if bad_blocks is [] then Ok NoBadBlocks else
  let bad_sectors_count := len bad_blocks * sectors_per_block in
  truediv (bad_sectors_count * 512) 1024;;
  truediv (len bad_blocks) total_blocks;;
  bad_ranges ← create_ranges bad_blocks;
  let sector_ranges := sector_ranges_of bad_blocks sectors_per_block in
  sector_lines ← map_result sector_line sector_ranges;
  total ← py_str (len bad_blocks);
  Ok (Generated {|
    ntfsmarkbad_sectors_txt := join "" sector_lines;
    bad_block_ranges_txt :=
      "Bad blocks: " +:+ join ", " bad_ranges +:+ newline
      +:+ newline +:+ "Total: " +:+ total +:+ " bad blocks" +:+ newline
  |}).

(** ** Reading range texts back

    The design document describes the rendering of a range (a single number
    for a singleton, [start-end] otherwise) and speaks of expanding a range
    list back into integers.  The reader below follows that description; it
    is the inverse the round-trip and maximality statements are phrased
    with, and no function of [main.py]. *)

(** A decimal numeral with an optional minus sign. *)
Definition read_int (s : string) : option Z := Z.of_int <$> NilZero.int_of_string s.

(** Cuts a text at its first ['-'], if there is one. *)
Fixpoint cut_at_dash (s : string) : string * option string :=
  match s with
  | "" => ("", None)
  | String c r =>
      if Ascii.eqb c "-" then ("", Some r)
      else let '(a, b) := cut_at_dash r in (String c a, b)
  end.

(** The closed interval a range text stands for.  The first character is
    never the separator: it is a digit or the sign of [start]. *)
Definition read_range (s : string) : option (Z * Z) :=
  match s with
  | "" => None
  | String c r =>
      let '(a, b) := cut_at_dash r in
      lo ← read_int (String c a);
      match b with
      | None => Some (lo, lo)
      | Some t => hi ← read_int t; Some (lo, hi)
      end
  end.

(** A character that is a decimal digit if it is a digit at all, that is,
    any character but the three superscript digits. *)
Definition plain (c : ascii) : bool := implb (isdigit c) (isdecimal c).

(** A text without ['-']. *)
Definition no_dash (s : string) : bool :=
  all_chars (λ c, negb (Ascii.eqb c "-")) s.

(** The text of an interval: one numeral for a singleton, [start-end]
    otherwise. *)
Definition range_form (lo hi : Z) : string :=
  if decide (lo ≠ hi) then decimal lo +:+ "-" +:+ decimal hi else decimal lo.

Definition render (r : Z * Z) : string := range_form r.1 r.2.

(** An interval both ends of which [str] accepts. *)
Definition run_printable (r : Z * Z) : Prop := printable r.1 ∧ printable r.2.

Global Instance run_printable_dec (r : Z * Z) : Decision (run_printable r).
Proof. unfold run_printable. apply _. Defined.

(** The integers of a closed interval, ascending. *)
Definition interval (r : Z * Z) : list Z := seqZ r.1 (r.2 - r.1 + 1).

(** Expanding a range list into individual integers. *)
Definition expand_ranges (texts : list string) : option (list Z) :=
  rs ← mapM read_range texts; Some (concat (interval <$> rs)).

(** "Sorted with no duplicates". *)
Definition ascending (blocks : list Z) : Prop := Sorted Z.le blocks ∧ NoDup blocks.

Global Instance ascending_dec (blocks : list Z) : Decision (ascending blocks).
Proof. unfold ascending. apply _. Defined.

(** The runs of consecutive integers the scan of [create_ranges] goes
    through, as intervals: [runs_from s e l] continues the run [s..e]
    with the blocks [l]. *)
Fixpoint runs_from (s e : Z) (l : list Z) : list (Z * Z) :=
  match l with
  | [] => [(s, e)]
  | b :: l' =>
      if decide (b = e + 1) then runs_from s b l'
      else (s, e) :: runs_from b b l'
  end.

Definition runs (blocks : list Z) : list (Z * Z) :=
  match blocks with
  | [] => []
  | b :: l => runs_from b b l
  end.

(** ** Further definitions used by the properties below *)

(** [range(a, b)]. *)
Definition range_from (a b : Z) : list Z := seqZ a (b - a).

(** The sectors written to [badblocks_ext4.txt] (main.py, lines 161-164),
    one per line: [for start, end in sector_ranges: for sector in
    range(start, end + 1)]. *)
Definition badblocks_ext4 (sector_ranges : list (Z * Z)) : list Z :=
  foldl (λ written '(start, end_), written ++ range_from start (end_ + 1))
        [] sector_ranges.

(** [zip(blocks, blocks[1:])]: the pairs of neighbours of a list. *)
Definition neighbours (blocks : list Z) : list (Z * Z) := zip blocks (drop 1 blocks).

(** A pair of neighbours that the scan of [create_ranges] does not join. *)
Definition gap (p : Z * Z) : Prop := p.2 ≠ p.1 + 1.

Global Instance gap_dec (p : Z * Z) : Decision (gap p).
Proof. unfold gap. apply _. Defined.

(** The first token of a line, [parts[0]], if the line has one. *)
Definition first_token (line : string) : option string := head (split line).

(** A first token on which [int] fails although it passed [isdigit]: it
    is not made of decimal digits only, or it has more than
    [max_str_digits] of them. *)
Definition bad_token (t : string) : bool :=
  str_isdigit t &&
  (negb (all_chars isdecimal t) || negb (String.length t <=? max_str_digits)%nat).

(** A line on which [parse_blocks] fails. *)
Definition bad_line (line : string) : bool :=
  match first_token line with
  | Some t => bad_token t
  | None => false
  end.

(** The number a line contributes to the result of [parse_blocks], if it
    contributes one. *)
Definition line_number (line : string) : option Z :=
  t ← first_token line;
  if str_isdigit t then
    match py_int t with
    | Ok n => Some n
    | Raise _ => None
    end
  else None.

(** The tokens of the lines of a text, line by line, when the first line
    is read with the token [cur] already begun. *)
Definition line_tokens (cur : string) (s : string) : list (list string) :=
  match split_on LF s with
  | l0 :: ls => split_go cur l0 :: (split <$> ls)
  | [] => []
  end.

(** Ends the token [cur], if there is one, in front of the first line. *)
Definition push_token (cur : string) (tl : list (list string)) : list (list string) :=
  match tl with
  | h :: rest => (if cur is "" then h else cur :: h) :: rest
  | [] => []
  end.

(** The number of line feeds of a text. *)
Fixpoint count_LF (s : string) : nat :=
  match s with
  | "" => 0
  | String c r => if Ascii.eqb c LF then S (count_LF r) else count_LF r
  end.

(** The number a first token contributes, if it contributes one. *)
Definition token_number (t : string) : option Z :=
  if str_isdigit t then
    match py_int t with
    | Ok n => Some n
    | Raise _ => None
    end
  else None.

(** The values of the characters of a text of decimal digits. *)
Fixpoint char_digits (s : string) : list Z :=
  match s with
  | "" => []
  | String c r => (Z.of_N (code c) - 48) :: char_digits r
  end.

(** The characters a decimal numeral is made of. *)
Definition numchar (c : ascii) : bool := isdecimal c || Ascii.eqb c "-".

(** * Properties *)

(** ** [invert_blocks] *)

Section invert_blocks.
Implicit Types (good : list Z) (total b : Z).

Lemma elem_of_range b n : b ∈ range n ↔ 0 ≤ b < n.
Proof. unfold range. rewrite elem_of_seqZ. lia. Qed.

Lemma elem_of_invert_blocks good total b :
  b ∈ invert_blocks good total ↔ 0 ≤ b < total ∧ b ∉ good.
Proof.
  unfold invert_blocks, set_of.
  rewrite list_elem_of_filter, elem_of_range, elem_of_list_to_set. tauto.
Qed.

Lemma range_lt_sorted m n : StronglySorted Z.lt (seqZ m n).
Proof.
  destruct (decide (n ≤ 0)) as [?|Hn]; [by rewrite seqZ_nil by done; constructor|].
  rewrite <-(Z2Nat.id n) by lia. generalize (Z.to_nat n) as k. clear.
  intros k. revert m. induction k as [|k IH]; intros m.
  - rewrite seqZ_nil by done. constructor.
  - rewrite seqZ_cons by lia. constructor.
    + replace (Z.pred (Z.of_nat (S k))) with (Z.of_nat k) by lia. apply IH.
    + apply Forall_seqZ. lia.
Qed.

Lemma StronglySorted_filter {A} (R : relation A) (P : A → Prop)
    `{!∀ x, Decision (P x)} (l : list A) :
  StronglySorted R l → StronglySorted R (filter P l).
Proof.
  induction 1 as [|x l Hl IH Hx]; [constructor|].
  rewrite filter_cons. case_decide; [|done].
  constructor; [done|].
  apply Forall_forall. intros y [_ Hy]%list_elem_of_filter.
  by eapply Forall_forall in Hx.
Qed.

Lemma invert_blocks_sorted good total :
  StronglySorted Z.lt (invert_blocks good total).
Proof. apply StronglySorted_filter, range_lt_sorted. Qed.

Lemma invert_blocks_NoDup good total : NoDup (invert_blocks good total).
Proof. apply NoDup_filter, NoDup_seqZ. Qed.

Lemma filter_ext_elem_of {A} (P Q : A → Prop)
    `{!∀ x, Decision (P x), !∀ x, Decision (Q x)} (l : list A) :
  (∀ x, x ∈ l → P x ↔ Q x) → filter P l = filter Q l.
Proof.
  induction l as [|x l IH]; intros Hl; [done|].
  rewrite !filter_cons, IH by (intros; apply Hl; by right).
  assert (P x ↔ Q x) by (apply Hl; by left).
  repeat case_decide; tauto || done.
Qed.

Lemma invert_blocks_ext good good' total :
  (∀ b, 0 ≤ b < total → b ∈ good ↔ b ∈ good') →
  invert_blocks good total = invert_blocks good' total.
Proof.
  intros Hext. unfold invert_blocks, set_of.
  apply filter_ext_elem_of. intros b Hb%elem_of_range.
  rewrite !elem_of_list_to_set. by rewrite Hext.
Qed.

Lemma invert_blocks_nil good total :
  total ≤ 0 → invert_blocks good total = [].
Proof. intros Hn. unfold invert_blocks, range. by rewrite seqZ_nil. Qed.
End invert_blocks.

(** C1. For every [total_blocks > 0] and every list [good],
    [invert_blocks good total_blocks] holds exactly the integers of
    [0 .. total_blocks-1] that are not in [good], in strictly ascending
    order and without duplicates; it shares no element with [good], and
    together with the part of [good] inside the universe it covers the
    whole universe. *)
Theorem invert_blocks_complement (good : list Z) (total_blocks : Z) :
  0 < total_blocks →
  let bad := invert_blocks good total_blocks in
  (∀ b, b ∈ bad ↔ 0 ≤ b < total_blocks ∧ b ∉ good) ∧
  StronglySorted Z.lt bad ∧
  NoDup bad ∧
  (∀ b, b ∈ bad → b ∉ filter (λ g, 0 ≤ g < total_blocks) good) ∧
  (∀ b, 0 ≤ b < total_blocks ↔
        b ∈ bad ∨ b ∈ filter (λ g, 0 ≤ g < total_blocks) good).
Proof.
  intros _ bad. subst bad. split_and!.
  - apply elem_of_invert_blocks.
  - apply invert_blocks_sorted.
  - apply invert_blocks_NoDup.
  - intros b [_ Hb]%elem_of_invert_blocks [_ ?]%list_elem_of_filter. done.
  - intros b. rewrite elem_of_invert_blocks, list_elem_of_filter.
    destruct (decide (b ∈ good)); intuition.
Qed.

Lemma invert_blocks_complement_witness :
  0 < 10 ∧
  let bad := invert_blocks [2; 5; 9; 12] 10 in
  (∀ b, b ∈ bad ↔ 0 ≤ b < 10 ∧ b ∉ [2; 5; 9; 12]) ∧
  StronglySorted Z.lt bad ∧
  NoDup bad ∧
  (∀ b, b ∈ bad → b ∉ filter (λ g, 0 ≤ g < 10) [2; 5; 9; 12]) ∧
  (∀ b, 0 ≤ b < 10 ↔ b ∈ bad ∨ b ∈ filter (λ g, 0 ≤ g < 10) [2; 5; 9; 12]).
Proof. split; [lia|]. apply (invert_blocks_complement [2; 5; 9; 12] 10). lia. Defined.

(** C7. Values of [good] that are [>= total_blocks] are ignored: the result
    is that of [invert_blocks] on [good] restricted to [[0, total_blocks)],
    and also that on [good] with only the values [>= total_blocks]
    removed.  [invert_blocks] has no raising operation, so such values
    cannot make it fail. *)
Theorem invert_blocks_ignores_out_of_range (good : list Z) (total_blocks : Z) :
  0 < total_blocks →
  invert_blocks good total_blocks
    = invert_blocks (filter (λ g, 0 ≤ g < total_blocks) good) total_blocks ∧
  invert_blocks good total_blocks
    = invert_blocks (filter (λ g, g < total_blocks) good) total_blocks.
Proof.
  intros _. split; apply invert_blocks_ext; intros b Hb;
    rewrite list_elem_of_filter; intuition lia.
Qed.

Lemma invert_blocks_ignores_out_of_range_witness :
  0 < 10 ∧
  invert_blocks [2; 10; 5; 77; -1] 10
    = invert_blocks (filter (λ g, 0 ≤ g < 10) [2; 10; 5; 77; -1]) 10 ∧
  invert_blocks [2; 10; 5; 77; -1] 10
    = invert_blocks (filter (λ g, g < 10) [2; 10; 5; 77; -1]) 10.
Proof.
  split; [lia|]. apply (invert_blocks_ignores_out_of_range [2; 10; 5; 77; -1] 10). lia.
Defined.

(** C9. For [total_blocks <= 0] the universe [range(total_blocks)] is empty
    and [invert_blocks] returns the empty list, whatever [good] is. *)
Theorem invert_blocks_empty_universe (good : list Z) (total_blocks : Z) :
  total_blocks ≤ 0 → invert_blocks good total_blocks = [].
Proof. apply invert_blocks_nil. Qed.

Lemma invert_blocks_empty_universe_witness :
  -3 ≤ 0 ∧ invert_blocks [0; 1; 2] (-3) = [].
Proof. split; [lia|]. apply (invert_blocks_empty_universe [0; 1; 2] (-3)). lia. Defined.

(** ** Rendering and reading back *)

Section rendering.
Implicit Types (s t : string) (n lo hi : Z).

Lemma no_dash_uint (d : Decimal.uint) : no_dash (NilEmpty.string_of_uint d) = true.
Proof. induction d; simpl; auto. Qed.

Lemma no_dash_uint_zero (d : Decimal.uint) : no_dash (NilZero.string_of_uint d) = true.
Proof. destruct d; try done; apply (no_dash_uint (_ _)). Qed.

(** A numeral is a first character (a digit or the sign) followed by
    digits only. *)
Lemma decimal_shape n : ∃ c r, decimal n = String c r ∧ no_dash r = true.
Proof.
  unfold decimal. destruct n as [|p|p]; simpl.
  - by exists "0"%char, "".
  - pose proof (no_dash_uint (Pos.to_uint p)) as Hd.
    destruct (Pos.to_uint p); simpl in *; eauto.
  - eexists _, _. split; [done|]. apply no_dash_uint_zero.
Qed.

Lemma read_int_decimal n : read_int (decimal n) = Some n.
Proof.
  unfold read_int, decimal. rewrite NilZero.isi.
  - simpl. by rewrite DecimalZ.of_to.
  - destruct n; simpl; try done. intros [= H]. by apply DecimalPos.Unsigned.to_uint_nonnil in H.
  - destruct n; simpl; try done. intros [= H]. by apply DecimalPos.Unsigned.to_uint_nonnil in H.
Qed.

Lemma cut_at_dash_none s : no_dash s = true → cut_at_dash s = (s, None).
Proof.
  induction s as [|c s IH]; simpl; [done|].
  intros [Hc Hs]%andb_prop. destruct (Ascii.eqb c "-"); [done|].
  by rewrite IH.
Qed.

Lemma cut_at_dash_some s t :
  no_dash s = true → cut_at_dash (s +:+ "-" +:+ t) = (s, Some t).
Proof.
  induction s as [|c s IH]; simpl; [done|].
  intros [Hc Hs]%andb_prop. destruct (Ascii.eqb c "-"); [done|].
  by rewrite IH.
Qed.

(** The two forms: a single numeral for a singleton, [start-end]
    otherwise. *)
Lemma range_form_singleton n : range_form n n = decimal n.
Proof. unfold range_form. by rewrite decide_False by (by intros ?). Qed.

Lemma range_form_multi lo hi :
  lo ≠ hi → range_form lo hi = decimal lo +:+ "-" +:+ decimal hi.
Proof. intros Hne. unfold range_form. by rewrite decide_True. Qed.

(** Reading the text of a range gives back its two ends. *)
Lemma read_range_form lo hi : read_range (range_form lo hi) = Some (lo, hi).
Proof.
  unfold range_form.
  destruct (decimal_shape lo) as (c & r & Hlo & Hr).
  pose proof (read_int_decimal lo) as Hread. rewrite Hlo in Hread.
  case_decide as Hne.
  - rewrite Hlo. simpl. rewrite cut_at_dash_some by done.
    rewrite Hread. simpl. by rewrite read_int_decimal.
  - subst hi. rewrite Hlo. simpl.
    rewrite cut_at_dash_none by done. by rewrite Hread.
Qed.

(** [str] gives the numeral of an integer it accepts and raises
    [ValueError] on the others. *)
Lemma py_str_printable n : printable n → py_str n = Ok (decimal n).
Proof. intros Hn. unfold py_str. by rewrite decide_True. Qed.

Lemma py_str_Ok n t : py_str n = Ok t ↔ printable n ∧ t = decimal n.
Proof.
  unfold py_str. case_decide; split.
  - by intros [= <-].
  - by intros [_ ->].
  - done.
  - tauto.
Qed.

Lemma py_str_not_printable n : ¬ printable n → py_str n = Raise ValueError.
Proof. intros Hn. unfold py_str. by rewrite decide_False. Qed.

(** What [create_ranges] writes for a range. *)
Lemma range_text_closed lo hi :
  range_text lo hi =
    if decide (run_printable (lo, hi)) then Ok (range_form lo hi)
    else Raise ValueError.
Proof.
  unfold range_text, range_form, run_printable, py_str. cbn [fst snd].
  destruct (decide (lo ≠ hi)) as [Hne|Heq].
  - destruct (decide (printable lo)), (decide (printable hi)),
      (decide (printable lo ∧ printable hi)); cbn [mbind result_bind];
      first [done|tauto].
  - assert (lo = hi) as <- by (by destruct (decide (lo = hi))).
    destruct (decide (printable lo)), (decide (printable lo ∧ printable lo));
      first [done|tauto].
Qed.
End rendering.

(** ** [create_ranges] *)

Section create_ranges.
Implicit Types (blocks l : list Z) (s e b : Z) (rs : list (Z * Z)).

(** The loop of [create_ranges] writes the runs of [runs_from], and fails
    at the first run with an end that [str] refuses. *)
Lemma scan_step_eq (acc : list string) s e b :
  scan_step (Scan acc s e) b =
    if decide (b = e + 1) then Ok (Scan acc s b)
    else t ← range_text s e; Ok (Scan (acc ++ [t]) b b).
Proof. reflexivity. Qed.

Lemma for_each_scan_step (acc : list string) s e l :
  (st ← for_each scan_step (Scan acc s e) l;
   t ← range_text (start st) (end_ st);
   Ok (ranges st ++ [t]))
  = if decide (Forall run_printable (runs_from s e l))
    then Ok (acc ++ (render <$> runs_from s e l))
    else Raise ValueError.
Proof.
  revert acc s e. induction l as [|b l IH]; intros acc s e.
  - cbn [for_each runs_from mbind result_bind start end_ ranges].
    rewrite range_text_closed.
    destruct (decide (run_printable (s, e))) as [Hp|Hp]; cbn [mbind result_bind].
    + by rewrite decide_True by (by constructor).
    + rewrite decide_False; [done|]. by intros [? _]%Forall_cons.
  - cbn [for_each runs_from]. rewrite scan_step_eq.
    destruct (decide (b = e + 1)) as [->|Hb]; cbn [mbind result_bind]; [apply IH|].
    rewrite range_text_closed.
    destruct (decide (run_printable (s, e))) as [Hp|Hp]; cbn [mbind result_bind].
    + rewrite IH. destruct (decide (Forall run_printable (runs_from b b l))) as [Hl|Hl].
      * rewrite decide_True by (by constructor).
        cbn [fmap list_fmap]. by rewrite <-app_assoc.
      * rewrite decide_False; [done|]. by intros [_ ?]%Forall_cons.
    + rewrite decide_False; [done|]. by intros [? _]%Forall_cons.
Qed.

Lemma create_ranges_closed blocks :
  create_ranges blocks =
    if decide (Forall run_printable (runs blocks))
    then Ok (render <$> runs blocks)
    else Raise ValueError.
Proof.
  destruct blocks as [|b l]; [done|].
  unfold create_ranges. cbn [index lookup list_lookup mbind result_bind drop runs].
  apply (for_each_scan_step [] b b l).
Qed.

Lemma read_render rs : mapM read_range (render <$> rs) = Some rs.
Proof. apply mapM_fmap_Some. intros [lo hi]. apply read_range_form. Qed.

(** The first run starts where the scan started. *)
Lemma runs_from_head s e l : ∃ e' rs, runs_from s e l = (s, e') :: rs ∧ e ≤ e'.
Proof.
  revert e. induction l as [|b l IH]; intros e; simpl.
  - by exists e, [].
  - case_decide.
    + destruct (IH b) as (e' & rs & -> & ?). exists e', rs. split; [done|lia].
    + by eexists _, _.
Qed.

Lemma runs_from_wf s e l : s ≤ e → Forall (λ r, r.1 ≤ r.2) (runs_from s e l).
Proof.
  revert s e. induction l as [|b l IH]; intros s e Hse; simpl.
  - by repeat constructor.
  - case_decide.
    + apply IH. lia.
    + constructor; [done|]. by apply IH.
Qed.

(** Expanding the runs gives the blocks back. *)
Lemma seqZ_one b : seqZ b 1 = [b].
Proof. by rewrite seqZ_cons, seqZ_nil by lia. Qed.

Lemma expand_runs_from s e l :
  s ≤ e → concat (interval <$> runs_from s e l) = seqZ s (e - s + 1) ++ l.
Proof.
  revert s e. induction l as [|b l IH]; intros s e Hse; cbn [runs_from].
  - rewrite fmap_cons, fmap_nil. cbn [concat]. done.
  - case_decide as Hb.
    + rewrite IH by lia. subst b.
      replace (e + 1 - s + 1) with ((e - s + 1) + 1) by lia.
      rewrite seqZ_app by lia. rewrite <-app_assoc. do 2 f_equal.
      replace (s + (e - s + 1)) with (e + 1) by lia.
      by rewrite seqZ_one.
    + rewrite fmap_cons. cbn [concat]. rewrite IH by lia.
      unfold interval at 1. cbn [fst snd]. f_equal.
      replace (b - b + 1) with 1 by lia. by rewrite seqZ_one.
Qed.

Lemma expand_runs blocks : concat (interval <$> runs blocks) = blocks.
Proof.
  destruct blocks as [|b l]; [done|]. cbn [runs].
  rewrite expand_runs_from by lia. replace (b - b + 1) with 1 by lia.
  by rewrite seqZ_one.
Qed.

(** Two runs that follow each other are never mergeable. *)
Lemma runs_from_apart s e l :
  Sorted (λ r r' : Z * Z, r.2 + 1 ≠ r'.1) (runs_from s e l).
Proof.
  revert s e. induction l as [|b l IH]; intros s e; simpl.
  - by repeat constructor.
  - case_decide; [apply IH|]. constructor; [apply IH|].
    destruct (runs_from_head b b l) as (e' & rs & -> & _).
    constructor. simpl. lia.
Qed.

Lemma ascending_lt blocks : ascending blocks → StronglySorted Z.lt blocks.
Proof.
  intros [Hs Hn]. apply (Sorted_StronglySorted _) in Hs.
  induction Hs as [|x l Hl IH Hx]; [constructor|].
  apply NoDup_cons in Hn as [Hx' Hn]. constructor; [by apply IH|].
  apply Forall_forall. intros y Hy.
  rewrite Forall_forall in Hx. specialize (Hx y Hy).
  assert (x ≠ y) by (intros ->; done). lia.
Qed.

(** On strictly ascending blocks every run starts at or after the start
    of the scan, and the runs are ascending and do not overlap. *)
Lemma runs_from_lower s e l :
  s ≤ e → StronglySorted Z.lt (e :: l) → Forall (λ r, s ≤ r.1) (runs_from s e l).
Proof.
  revert s e. induction l as [|b l IH]; intros s e Hse Hsort; simpl.
  - by repeat constructor.
  - apply StronglySorted_inv in Hsort as [Hl He].
    apply Forall_cons in He as [Heb He].
    case_decide.
    + apply IH; [lia|done].
    + constructor; [done|].
      eapply Forall_impl; [apply (IH b b); [lia|done]|]. simpl. lia.
Qed.

Lemma runs_from_ordered s e l :
  s ≤ e → StronglySorted Z.lt (e :: l) →
  StronglySorted (λ r r' : Z * Z, r.2 < r'.1) (runs_from s e l).
Proof.
  revert s e. induction l as [|b l IH]; intros s e Hse Hsort; simpl.
  - by repeat constructor.
  - apply StronglySorted_inv in Hsort as [Hl He].
    apply Forall_cons in He as [Heb He].
    case_decide.
    + apply IH; [lia|done].
    + constructor; [by apply IH|].
      eapply Forall_impl; [apply (runs_from_lower b b); [lia|done]|]. simpl. lia.
Qed.

Lemma Sorted_lookup {A} (R : relation A) (xs : list A) (i : nat) (x y : A) :
  Sorted R xs → xs !! i = Some x → xs !! S i = Some y → R x y.
Proof.
  intros Hs. revert i. induction Hs as [|a xs Hs IH Hhd]; intros i; [done|].
  destruct i as [|i]; simpl.
  - intros [= ->] Hy. destruct Hhd; simplify_eq/=. done.
  - apply IH.
Qed.

Lemma StronglySorted_lookup {A} (R : relation A) (xs : list A) (i j : nat) (x y : A) :
  StronglySorted R xs → (i < j)%nat → xs !! i = Some x → xs !! j = Some y → R x y.
Proof.
  intros Hs. revert i j. induction Hs as [|a xs Hs IH Hall]; intros i j Hij; [done|].
  destruct j as [|j]; [lia|]. destruct i as [|i]; simpl.
  - intros [= ->] Hy. eapply Forall_forall in Hall; [done|].
    by eapply list_elem_of_lookup_2.
  - apply IH. lia.
Qed.
(** Each run starts and ends at a block. *)
Lemma runs_from_ends s e l :
  Forall (λ r, r.1 ∈ s :: l ∧ r.2 ∈ e :: l) (runs_from s e l).
Proof.
  revert s e. induction l as [|b l IH]; intros s e; cbn [runs_from].
  - repeat constructor.
  - case_decide.
    + eapply Forall_impl; [apply IH|]. intros r [H1 H2]. split.
      * apply elem_of_cons in H1 as [->|H1]; [by left|]. by do 2 right.
      * by right.
    + constructor; [split; by left|].
      eapply Forall_impl; [apply IH|]. intros r [H1 H2]. split; by right.
Qed.

Lemma runs_printable blocks :
  Forall printable blocks → Forall run_printable (runs blocks).
Proof.
  intros Hp. destruct blocks as [|b l]; [constructor|]. cbn [runs].
  eapply Forall_impl; [apply runs_from_ends|].
  intros r [H1 H2]. rewrite Forall_forall in Hp. split; by apply Hp.
Qed.

(** On blocks that [str] accepts [create_ranges] returns the texts of the
    runs; whenever it returns, these are its texts. *)
Lemma create_ranges_printable blocks :
  Forall printable blocks → create_ranges blocks = Ok (render <$> runs blocks).
Proof.
  intros Hp. rewrite create_ranges_closed. by rewrite decide_True by by apply runs_printable.
Qed.

Lemma create_ranges_Ok blocks texts :
  create_ranges blocks = Ok texts → texts = render <$> runs blocks.
Proof. rewrite create_ranges_closed. case_decide; [by intros [= <-]|done]. Qed.

(** Every text is a single numeral or two numerals joined by a dash. *)
Lemma render_form rs :
  Forall (λ r, r.1 ≤ r.2) rs →
  Forall (λ t, ∃ lo hi, lo ≤ hi ∧
            t = if decide (lo = hi) then decimal lo
                else decimal lo +:+ "-" +:+ decimal hi) (render <$> rs).
Proof.
  intros Hrs. apply Forall_fmap. eapply Forall_impl; [done|].
  intros [lo hi] Hr. exists lo, hi. split; [done|]. unfold render, range_form. simpl.
  by destruct (decide (lo = hi)); [rewrite decide_False by tauto|rewrite decide_True].
Qed.

Lemma runs_wf blocks : Forall (λ r, r.1 ≤ r.2) (runs blocks).
Proof. destruct blocks as [|b l]; [constructor|]. apply runs_from_wf. lia. Qed.
End create_ranges.

(** C2, as the code has it.  For every sorted, duplicate-free sequence
    [blocks] of integers of at most [max_str_digits] (4300) digits each,
    [create_ranges blocks] returns range texts, each a single numeral or
    [start-end] with [start < end], and expanding them (a numeral stands
    for itself, [start-end] for every integer from [start] to [end]) gives
    [blocks] back, in the same order. *)
Theorem create_ranges_round_trip (blocks : list Z) :
  ascending blocks → Forall printable blocks →
  ∃ texts,
    create_ranges blocks = Ok texts ∧
    expand_ranges texts = Some blocks ∧
    Forall (λ t, ∃ lo hi, lo ≤ hi ∧
              t = if decide (lo = hi) then decimal lo
                  else decimal lo +:+ "-" +:+ decimal hi) texts.
Proof.
  intros _ Hp. exists (render <$> runs blocks).
  split; [by apply create_ranges_printable|]. split.
  - unfold expand_ranges. rewrite read_render. simpl. by rewrite expand_runs.
  - apply render_form, runs_wf.
Qed.

Lemma create_ranges_round_trip_witness :
  ascending [-3; -2; -1; 0; 4; 6; 7] ∧ Forall printable [-3; -2; -1; 0; 4; 6; 7] ∧
  ∃ texts,
    create_ranges [-3; -2; -1; 0; 4; 6; 7] = Ok texts ∧
    expand_ranges texts = Some [-3; -2; -1; 0; 4; 6; 7] ∧
    Forall (λ t, ∃ lo hi, lo ≤ hi ∧
              t = if decide (lo = hi) then decimal lo
                  else decimal lo +:+ "-" +:+ decimal hi) texts.
Proof.
  assert (ascending [-3; -2; -1; 0; 4; 6; 7]) as H
    by (apply (bool_decide_unpack _); vm_compute; exact I).
  assert (Forall printable [-3; -2; -1; 0; 4; 6; 7]) as Hp
    by (apply (bool_decide_unpack _); vm_compute; exact I).
  split; [exact H|]. split; [exact Hp|]. exact (create_ranges_round_trip _ H Hp).
Defined.

(** C2, as stated, fails: the one-element sequence [10^4300] is sorted and
    duplicate-free, its element has 4301 digits, and [create_ranges]
    raises [ValueError] on it, so that there is nothing to expand. *)
Lemma create_ranges_round_trip_fails :
  ascending [10 ^ 4300] ∧
  create_ranges [10 ^ 4300] = Raise ValueError ∧
  ¬ ∃ texts, create_ranges [10 ^ 4300] = Ok texts
             ∧ expand_ranges texts = Some [10 ^ 4300].
Proof.
  assert (create_ranges [10 ^ 4300] = Raise ValueError) as H by (by vm_compute).
  split_and!; [|done|].
  - split; [repeat constructor|]. apply NoDup_singleton.
  - intros (texts & Htexts & _). by rewrite H in Htexts.
Qed.

(** C4, as the code has it.  For every sorted, duplicate-free sequence
    [blocks] of integers of at most [max_str_digits] (4300) digits each,
    every text of [create_ranges blocks] reads as a closed interval
    [start <= end]; two ranges that follow each other never satisfy
    [end + 1 = start] (they are not mergeable); and the ranges are
    ascending and do not overlap: a range ends before any later one
    starts. *)
Theorem create_ranges_maximal (blocks : list Z) :
  ascending blocks → Forall printable blocks →
  ∃ texts rs,
    create_ranges blocks = Ok texts ∧
    mapM read_range texts = Some rs ∧
    Forall (λ r, r.1 ≤ r.2) rs ∧
    (∀ i r r', rs !! i = Some r → rs !! S i = Some r' → r.2 + 1 ≠ r'.1) ∧
    (∀ i j r r', (i < j)%nat → rs !! i = Some r → rs !! j = Some r' → r.2 < r'.1).
Proof.
  intros Hasc%ascending_lt Hp. exists (render <$> runs blocks), (runs blocks).
  split; [by apply create_ranges_printable|]. split; [apply read_render|].
  destruct blocks as [|b l]; simpl.
  { split_and!; [constructor|intros [|?] ?? [=]|intros [|?] ???? [=]]. }
  split_and!.
  - apply runs_from_wf. lia.
  - intros i r r'.
    apply (Sorted_lookup (λ r r' : Z * Z, r.2 + 1 ≠ r'.1)), runs_from_apart.
  - intros i j r r'.
    apply (StronglySorted_lookup (λ r r' : Z * Z, r.2 < r'.1)), runs_from_ordered;
      [lia|done].
Qed.

Lemma create_ranges_maximal_witness :
  ascending [0; 1; 3; 4; 6; 7; 8] ∧ Forall printable [0; 1; 3; 4; 6; 7; 8] ∧
  ∃ texts rs,
    create_ranges [0; 1; 3; 4; 6; 7; 8] = Ok texts ∧
    mapM read_range texts = Some rs ∧
    Forall (λ r, r.1 ≤ r.2) rs ∧
    (∀ i r r', rs !! i = Some r → rs !! S i = Some r' → r.2 + 1 ≠ r'.1) ∧
    (∀ i j r r', (i < j)%nat → rs !! i = Some r → rs !! j = Some r' → r.2 < r'.1).
Proof.
  assert (ascending [0; 1; 3; 4; 6; 7; 8]) as H
    by (apply (bool_decide_unpack _); vm_compute; exact I).
  assert (Forall printable [0; 1; 3; 4; 6; 7; 8]) as Hp
    by (apply (bool_decide_unpack _); vm_compute; exact I).
  split; [exact H|]. split; [exact Hp|]. exact (create_ranges_maximal _ H Hp).
Defined.

(** C4, as stated, fails: [[7; 10^4300 + 5]] is sorted and duplicate-free,
    and [create_ranges] raises [ValueError] on it instead of producing a
    range list. *)
Lemma create_ranges_maximal_fails :
  ascending [7; 10 ^ 4300 + 5] ∧
  create_ranges [7; 10 ^ 4300 + 5] = Raise ValueError ∧
  ¬ ∃ texts, create_ranges [7; 10 ^ 4300 + 5] = Ok texts.
Proof.
  assert (create_ranges [7; 10 ^ 4300 + 5] = Raise ValueError) as H by (by vm_compute).
  split_and!; [|done|].
  - apply (bool_decide_unpack _). by vm_compute.
  - intros (texts & Htexts). by rewrite H in Htexts.
Qed.




(** ** [block_to_sector] and the sector ranges of [main] *)

Lemma sector_ranges_of_fmap (bad_blocks : list Z) (s : Z) :
  sector_ranges_of bad_blocks s = (λ b, sector_range b s) <$> bad_blocks.
Proof.
  unfold sector_ranges_of.
  enough (∀ acc, foldl (λ rs b, rs ++ [sector_range b s]) acc bad_blocks
                 = acc ++ ((λ b, sector_range b s) <$> bad_blocks)) as H by apply H.
  induction bad_blocks as [|b l IH]; intros acc; simpl.
  - by rewrite app_nil_r.
  - rewrite IH. by rewrite <-app_assoc.
Qed.

(** C3. For every block [b] and every [sectors_per_block > 0], the sector
    range [main] computes for [b] starts at [b * sectors_per_block] and
    ends at [(b+1) * sectors_per_block - 1], so that start [<=] end, and
    the range of block [b+1] starts right after the end of that of [b];
    the list [main] builds holds exactly these ranges, one per bad
    block. *)
Theorem sector_range_exact (b sectors_per_block : Z) :
  0 < sectors_per_block →
  sector_range b sectors_per_block
    = (b * sectors_per_block, (b + 1) * sectors_per_block - 1) ∧
  (sector_range b sectors_per_block).1 ≤ (sector_range b sectors_per_block).2 ∧
  (sector_range b sectors_per_block).2 + 1 = (sector_range (b + 1) sectors_per_block).1 ∧
  (∀ bad_blocks,
     sector_ranges_of bad_blocks sectors_per_block
       = (λ b, (b * sectors_per_block, (b + 1) * sectors_per_block - 1)) <$> bad_blocks).
Proof.
  intros Hs. split_and!.
  - reflexivity.
  - unfold sector_range, block_to_sector. simpl. lia.
  - unfold sector_range, block_to_sector. simpl. lia.
  - intros bad_blocks. apply sector_ranges_of_fmap.
Qed.

Lemma sector_range_exact_witness :
  0 < 100 ∧
  sector_range 3 100 = (3 * 100, (3 + 1) * 100 - 1) ∧
  (sector_range 3 100).1 ≤ (sector_range 3 100).2 ∧
  (sector_range 3 100).2 + 1 = (sector_range (3 + 1) 100).1 ∧
  (∀ bad_blocks,
     sector_ranges_of bad_blocks 100
       = (λ b, (b * 100, (b + 1) * 100 - 1)) <$> bad_blocks).
Proof. split; [lia|]. apply (sector_range_exact 3 100). lia. Defined.

(** ** [parse_blocks] *)

Section parse_blocks.
Implicit Types (data line : string) (blocks good : list Z).

Lemma elem_of_sorted (s : gset Z) (x : Z) : x ∈ sorted s ↔ x ∈ s.
Proof. unfold sorted. by rewrite merge_sort_Permutation, elem_of_elements. Qed.

Lemma sorted_ascending (s : gset Z) : ascending (sorted s).
Proof.
  unfold sorted. split.
  - apply (Sorted_merge_sort _).
  - rewrite merge_sort_Permutation. apply NoDup_elements.
Qed.

(** What [parse_blocks] returns is sorted and free of duplicates. *)
Lemma parse_blocks_ascending data good :
  parse_blocks data = Ok good → StronglySorted Z.lt good.
Proof.
  unfold parse_blocks. destruct (for_each _ _ _) as [blocks|]; simpl; [|done].
  intros [= <-]. apply ascending_lt, sorted_ascending.
Qed.

Lemma parse_blocks_empty : parse_blocks "" = Ok [].
Proof. reflexivity. Qed.

Lemma all_chars_app (p : ascii → bool) (s t : string) :
  all_chars p (s +:+ t) = all_chars p s && all_chars p t.
Proof. induction s as [|c s IH]; simpl; [done|]. by rewrite IH, andb_assoc. Qed.

Lemma all_chars_lstrip (p sp : ascii → bool) (s : string) :
  all_chars p s = true → all_chars p (lstrip_with sp s) = true.
Proof.
  induction s as [|c s IH]; simpl; [done|].
  intros [Hc Hs]%andb_prop. destruct (sp c); [by apply IH|].
  simpl. by rewrite Hc, Hs.
Qed.

Lemma all_chars_rstrip (p sp : ascii → bool) (s : string) :
  all_chars p s = true → all_chars p (rstrip_with sp s) = true.
Proof.
  induction s as [|c s IH]; simpl; [done|].
  intros [Hc Hs]%andb_prop. specialize (IH Hs).
  destruct (rstrip_with sp s); [destruct (sp c)|]; simpl in *; by rewrite ?Hc, ?IH.
Qed.

Lemma all_chars_split_on (p : ascii → bool) (sep : ascii) (s : string) :
  all_chars p s = true → Forall (λ w, all_chars p w = true) (split_on sep s).
Proof.
  induction s as [|c s IH]; simpl; [by repeat constructor|].
  intros [Hc Hs]%andb_prop. specialize (IH Hs).
  destruct (Ascii.eqb c sep); [by constructor|].
  destruct IH as [|w ws Hw Hws]; constructor; simpl; by rewrite ?Hc.
Qed.

Lemma all_chars_split_go (p : ascii → bool) (cur s : string) :
  all_chars p cur = true → all_chars p s = true →
  Forall (λ w, all_chars p w = true) (split_go cur s).
Proof.
  revert cur. induction s as [|c s IH]; intros cur Hcur; simpl.
  - intros _. destruct cur; by repeat constructor.
  - intros [Hc Hs]%andb_prop. destruct (isspace c).
    + destruct cur; [|constructor; [done|]]; by apply IH.
    + apply IH; [|done]. rewrite all_chars_app, Hcur. simpl. by rewrite Hc.
Qed.

Lemma isdecimal_digit (c : ascii) :
  isdecimal c = true → 0 ≤ Z.of_N (code c) - 48 ≤ 9.
Proof.
  unfold isdecimal, between. intros [Hlo Hhi]%andb_prop.
  apply N.leb_le in Hlo, Hhi. lia.
Qed.

Lemma isdecimal_not_special (c : ascii) :
  isdecimal c = true →
  isspace_int c = false ∧ Ascii.eqb c "-" = false ∧
  Ascii.eqb c "+" = false ∧ Ascii.eqb c "_" = false.
Proof.
  destruct c as [[] [] [] [] [] [] [] []]; vm_compute; (discriminate || done).
Qed.

Lemma rstrip_decimal (s : string) :
  all_chars isdecimal s = true → rstrip_with isspace_int s = s.
Proof.
  induction s as [|c s IH]; simpl; [done|].
  intros [Hc Hs]%andb_prop. rewrite (IH Hs).
  destruct (isdecimal_not_special c Hc) as (-> & _). by destruct s.
Qed.

Lemma int_digits_decimal (c : ascii) (s : string) :
  all_chars isdecimal (String c s) = true →
  ∃ ds, int_digits (String c s) = Some ds ∧ Forall (λ d, 0 ≤ d ≤ 9) ds.
Proof.
  revert c. induction s as [|c' s IH]; intros c [Hc Hs]%andb_prop.
  - simpl. rewrite Hc. eexists. split; [done|].
    repeat constructor; apply (isdecimal_digit c Hc).
  - destruct (IH c' Hs) as (ds & Hds & Hall).
    cbn [int_digits]. rewrite Hc.
    apply andb_prop in Hs as Hs'. destruct Hs' as [Hc' _].
    destruct (isdecimal_not_special c' Hc') as (_ & _ & _ & ->).
    cbn [int_digits] in Hds. rewrite Hds. eexists. split; [done|].
    constructor; [apply (isdecimal_digit c Hc)|done].
Qed.

Lemma digits_value_nonneg (ds : list Z) :
  Forall (λ d, 0 ≤ d ≤ 9) ds → 0 ≤ digits_value ds.
Proof.
  unfold digits_value. intros Hds.
  enough (∀ acc, 0 ≤ acc → 0 ≤ foldl (λ acc d, 10 * acc + d) acc ds) as H
    by (by apply H).
  induction Hds as [|d ds Hd Hds IH]; intros acc Hacc; simpl; [done|].
  apply IH. lia.
Qed.

Lemma isdigit_plain_decimal (s : string) :
  all_chars plain s = true → all_chars isdigit s = true →
  all_chars isdecimal s = true.
Proof.
  induction s as [|c s IH]; simpl; [done|].
  intros [Hc Hs]%andb_prop [Hd Hs']%andb_prop. rewrite IH by done.
  unfold plain in Hc. rewrite Hd in Hc. simpl in Hc. by rewrite Hc.
Qed.

End parse_blocks.

(** C5. [parse_blocks] guards [int(parts[0])] with [parts[0].isdigit()],
    and [isdigit] accepts the superscript digits, which [int] rejects: on
    the one-character text U+00B2, and on a report with such a line, the
    call raises [ValueError] instead of skipping the line. *)
Theorem parse_blocks_superscript_digit :
  str_isdigit (String superscript_two "") = true ∧
  py_int (String superscript_two "") = Raise ValueError ∧
  parse_blocks (String superscript_two "") = Raise ValueError ∧
  parse_blocks ("5" +:+ newline +:+ String superscript_two "" +:+ newline +:+ "9")
    = Raise ValueError.
Proof. by vm_compute. Qed.

(** C8. Scenario 6: the text [5\n2\n2\n5\n9] parses to [[2; 5; 9]]; with
    [total_blocks = 10] its inversion is [[0; 1; 3; 4; 6; 7; 8]], whose
    ranges are ["0-1"], ["3-4"] and ["6-8"]. *)
Theorem scenario_duplicates_unsorted :
  parse_blocks ("5" +:+ newline +:+ "2" +:+ newline +:+ "2" +:+ newline
                +:+ "5" +:+ newline +:+ "9") = Ok [2; 5; 9] ∧
  invert_blocks [2; 5; 9] 10 = [0; 1; 3; 4; 6; 7; 8] ∧
  create_ranges [0; 1; 3; 4; 6; 7; 8] = Ok ["0-1"; "3-4"; "6-8"].
Proof. by vm_compute. Qed.

(** ** Numerals, digits and magnitude *)

Section numerals.
Implicit Types (s : string) (n a b : Z) (d : Decimal.uint) (ds : list Z).

Lemma all_chars_impl (p q : ascii → bool) s :
  (∀ c, p c = true → q c = true) → all_chars p s = true → all_chars q s = true.
Proof.
  intros Hpq. induction s as [|c s IH]; simpl; [done|].
  intros [Hc Hs]%andb_prop. by rewrite (Hpq c Hc), IH.
Qed.

Lemma uint_string_decimal d : all_chars isdecimal (NilEmpty.string_of_uint d) = true.
Proof. induction d; simpl; by rewrite ?IHd. Qed.

Lemma uint_string_nonempty d : d ≠ Decimal.Nil → NilEmpty.string_of_uint d ≠ "".
Proof. by destruct d. Qed.

Lemma int_digits_cons (c c' : ascii) s :
  int_digits (String c (String c' s)) =
    if isdecimal c then
      if Ascii.eqb c' "_" then cons (Z.of_N (code c) - 48) <$> int_digits s
      else cons (Z.of_N (code c) - 48) <$> int_digits (String c' s)
    else None.
Proof. reflexivity. Qed.

Lemma int_digits_chars (c : ascii) s :
  all_chars isdecimal (String c s) = true →
  int_digits (String c s) = Some (char_digits (String c s)).
Proof.
  revert c. induction s as [|c' s IH]; intros c [Hc Hs]%andb_prop.
  - simpl. by rewrite Hc.
  - rewrite int_digits_cons, Hc.
    apply andb_prop in Hs as Hs'. destruct Hs' as [Hc' _].
    destruct (isdecimal_not_special c' Hc') as (_ & _ & _ & ->).
    by rewrite (IH c' Hs).
Qed.

Ltac digit_value :=
  repeat match goal with
  | |- context [Z.of_N (code ?c) - 48] =>
      let v := eval vm_compute in (Z.of_N (code c) - 48) in
      change (Z.of_N (code c) - 48) with v
  end.

Lemma digits_acc d (acc : positive) :
  foldl (λ a k, 10 * a + k) (Z.pos acc) (char_digits (NilEmpty.string_of_uint d))
    = Z.pos (Pos.of_uint_acc d acc).
Proof.
  revert acc. induction d; intros acc;
    cbn [NilEmpty.string_of_uint char_digits foldl Pos.of_uint_acc];
    [done|digit_value; rewrite <-IHd; f_equal; lia..].
Qed.

Lemma digits_value_uint d :
  digits_value (char_digits (NilEmpty.string_of_uint d)) = Z.of_N (Pos.of_uint d).
Proof.
  unfold digits_value. induction d;
    cbn [NilEmpty.string_of_uint char_digits foldl Pos.of_uint];
    [done|digit_value..].
  - exact IHd.
  - apply (digits_acc d 1).
  - apply (digits_acc d 2).
  - apply (digits_acc d 3).
  - apply (digits_acc d 4).
  - apply (digits_acc d 5).
  - apply (digits_acc d 6).
  - apply (digits_acc d 7).
  - apply (digits_acc d 8).
  - apply (digits_acc d 9).
Qed.

Lemma length_char_digits s : length (char_digits s) = String.length s.
Proof. induction s as [|c s IH]; simpl; [done|]. by rewrite IH. Qed.

Lemma char_digits_range s :
  all_chars isdecimal s = true → Forall (λ k, 0 ≤ k ≤ 9) (char_digits s).
Proof.
  induction s as [|c s IH]; simpl; [constructor|].
  intros [Hc Hs]%andb_prop. constructor; [by apply isdecimal_digit|by apply IH].
Qed.

(** The value of a sequence of digits, between the powers of ten. *)
Lemma foldl_digits_bounds ds (acc : Z) :
  Forall (λ k, 0 ≤ k ≤ 9) ds → 0 ≤ acc →
  acc * 10 ^ Z.of_nat (length ds)
    ≤ foldl (λ a k, 10 * a + k) acc ds
    < (acc + 1) * 10 ^ Z.of_nat (length ds).
Proof.
  intros Hds. revert acc. induction Hds as [|k ds Hk Hds IH]; intros acc Hacc.
  - simpl. lia.
  - cbn [foldl length]. rewrite Nat2Z.inj_succ, Z.pow_succ_r by lia.
    specialize (IH (10 * acc + k) ltac:(lia)).
    assert (0 < 10 ^ Z.of_nat (length ds)) by (apply Z.pow_pos_nonneg; lia).
    nia.
Qed.

Lemma digits_value_upper ds :
  Forall (λ k, 0 ≤ k ≤ 9) ds → 0 ≤ digits_value ds < 10 ^ Z.of_nat (length ds).
Proof.
  intros Hds. pose proof (foldl_digits_bounds ds 0 Hds ltac:(lia)) as H.
  unfold digits_value. lia.
Qed.

(** The numeral of a positive number does not start with a zero. *)
Lemma to_uint_head (p : positive) d : Pos.to_uint p ≠ Decimal.D0 d.
Proof.
  intros Hp. pose proof (DecimalPos.Unsigned.to_of (Pos.to_uint p)) as Hn.
  rewrite DecimalPos.Unsigned.of_to in Hn. cbn [N.to_uint] in Hn.
  rewrite Hp in Hn. unfold Decimal.unorm in Hn. cbn [Decimal.nzhead] in Hn.
  destruct (Decimal.nzhead d) eqn:Hd; try done.
  - injection Hn as ->. by apply (DecimalPos.Unsigned.to_uint_nonzero p).
  - injection Hn as <-. by apply DecimalFacts.nzhead_nonzero in Hd.
Qed.

Lemma decimal_pos (p : positive) :
  decimal (Z.pos p) = NilEmpty.string_of_uint (Pos.to_uint p).
Proof.
  unfold decimal. cbn [Z.to_int NilZero.string_of_int].
  pose proof (DecimalPos.Unsigned.to_uint_nonnil p). by destruct (Pos.to_uint p).
Qed.

(** A positive number lies between the powers of ten its number of digits
    gives. *)
Lemma num_digits_bounds (p : positive) :
  10 ^ (Z.of_nat (num_digits (Z.pos p)) - 1) ≤ Z.pos p
    < 10 ^ Z.of_nat (num_digits (Z.pos p)).
Proof.
  unfold num_digits. change (Z.abs (Z.pos p)) with (Z.pos p).
  rewrite decimal_pos, <-length_char_digits.
  pose proof (digits_value_uint (Pos.to_uint p)) as Hv.
  rewrite DecimalPos.Unsigned.of_to in Hv. cbn [Z.of_N] in Hv.
  pose proof (char_digits_range _ (uint_string_decimal (Pos.to_uint p))) as Hr.
  destruct (Pos.to_uint p) as [|d|d|d|d|d|d|d|d|d|d] eqn:Hp;
    [by apply DecimalPos.Unsigned.to_uint_nonnil in Hp
    |by apply to_uint_head in Hp|..];
    cbn [NilEmpty.string_of_uint char_digits] in *; revert Hv Hr; digit_value;
    intros Hv [_ Hr]%Forall_cons; unfold digits_value in Hv; cbn [foldl] in Hv;
    cbn [length]; rewrite Nat2Z.inj_succ;
    replace (Z.succ (Z.of_nat (length (char_digits (NilEmpty.string_of_uint d)))) - 1)
      with (Z.of_nat (length (char_digits (NilEmpty.string_of_uint d)))) by lia;
    rewrite Z.pow_succ_r by lia;
    match type of Hv with
    | foldl _ ?k _ = _ => pose proof (foldl_digits_bounds _ k Hr ltac:(lia)) as Hb
    end;
    rewrite Hv in Hb; lia.
Qed.

(** [str] accepts exactly the integers below [10^4300] in magnitude. *)
Lemma printable_iff n : printable n ↔ Z.abs n < 10 ^ Z.of_nat max_str_digits.
Proof.
  unfold printable. destruct (Z.abs n) as [|p|p] eqn:Hn; [| |lia].
  - assert (num_digits n = 1%nat) as -> by (unfold num_digits; by rewrite Hn).
    split; [intros _; by apply Z.pow_pos_nonneg|]. intros _. unfold max_str_digits. lia.
  - assert (num_digits n = num_digits (Z.pos p)) as -> by (unfold num_digits; by rewrite Hn).
    pose proof (num_digits_bounds p) as [Hlo Hhi]. split.
    + intros Hle. eapply Z.lt_le_trans; [done|]. apply Z.pow_le_mono_r; lia.
    + intros Hlt. apply Nat.nlt_ge. intros Hgt.
      assert (10 ^ Z.of_nat max_str_digits ≤ 10 ^ (Z.of_nat (num_digits (Z.pos p)) - 1))
        by (apply Z.pow_le_mono_r; lia).
      lia.
Qed.

Lemma printable_mono a b : Z.abs a ≤ Z.abs b → printable b → printable a.
Proof. rewrite !printable_iff. lia. Qed.

Lemma printable_small a : Z.abs a ≤ 10000 → printable a.
Proof.
  intros Ha. apply (printable_mono a 10000); [lia|].
  apply (bool_decide_unpack _). by vm_compute.
Qed.

(** The digits [int_digits] returns are digits. *)
Lemma int_digits_range s ds :
  int_digits s = Some ds → Forall (λ k, 0 ≤ k ≤ 9) ds.
Proof.
  remember (String.length s) as m eqn:Hm.
  revert s ds Hm. induction (lt_wf m) as [m _ IH]. intros s ds -> Hs.
  destruct s as [|c [|c' s]]; [done| |].
  - simpl in Hs. destruct (isdecimal c) eqn:Hc; [|done].
    injection Hs as <-. repeat constructor; apply (isdecimal_digit c Hc).
  - rewrite int_digits_cons in Hs. destruct (isdecimal c) eqn:Hc; [|done].
    destruct (Ascii.eqb c' "_").
    + destruct (int_digits s) as [ds'|] eqn:Hds; [|done]. injection Hs as <-.
      constructor; [apply (isdecimal_digit c Hc)|].
      eapply (IH (String.length s)); [simpl; lia|done..].
    + destruct (int_digits (String c' s)) as [ds'|] eqn:Hds; [|done]. injection Hs as <-.
      constructor; [apply (isdecimal_digit c Hc)|].
      eapply (IH (String.length (String c' s))); [simpl; lia|done..].
Qed.

(** What [int] returns, [str] accepts. *)
Lemma py_int_printable s n : py_int s = Ok n → printable n.
Proof.
  unfold py_int.
  destruct (match rstrip_with isspace_int (lstrip_with isspace_int s) with
            | "" => _ | String c r => _ end) as [negative body].
  destruct (int_digits body) as [ds|] eqn:Hds; [|done].
  case_decide as Hlen; [|done]. intros [= <-].
  pose proof (digits_value_upper ds (int_digits_range _ _ Hds)) as Hv.
  apply printable_iff.
  assert (10 ^ Z.of_nat (length ds) ≤ 10 ^ Z.of_nat max_str_digits)
    by (apply Z.pow_le_mono_r; lia).
  destruct negative; lia.
Qed.

(** [int()] on a text of decimal digits: their value, unless there are
    more than [max_str_digits] of them. *)
Lemma py_int_decimal_value s :
  s ≠ "" → all_chars isdecimal s = true →
  py_int s = if decide (String.length s ≤ max_str_digits)%nat
             then Ok (digits_value (char_digits s))
             else Raise ValueError.
Proof.
  intros Hne Hs. destruct s as [|c s]; [done|].
  apply andb_prop in Hs as Hs'. destruct Hs' as [Hc _].
  destruct (isdecimal_not_special c Hc) as (Hsp & Hm & Hp & _).
  unfold py_int. cbn [lstrip_with]. rewrite Hsp, rstrip_decimal by done.
  rewrite Hm, Hp, int_digits_chars by done.
  by rewrite length_char_digits.
Qed.

(** A non-negative number that [str] accepts is written in decimal digits,
    and [int] reads it back. *)
Lemma decimal_nonneg n :
  0 ≤ n → decimal n ≠ "" ∧ all_chars isdecimal (decimal n) = true ∧
          (printable n → py_int (decimal n) = Ok n).
Proof.
  intros Hn. destruct n as [|p|p]; [done| |lia].
  rewrite decimal_pos.
  pose proof (uint_string_nonempty _ (DecimalPos.Unsigned.to_uint_nonnil p)) as Hne.
  pose proof (uint_string_decimal (Pos.to_uint p)) as Hdec.
  split_and!; [done..|]. intros Hp.
  rewrite py_int_decimal_value, digits_value_uint by done.
  rewrite DecimalPos.Unsigned.of_to.
  unfold printable, num_digits in Hp. change (Z.abs (Z.pos p)) with (Z.pos p) in Hp.
  rewrite decimal_pos in Hp.
  by rewrite decide_True.
Qed.
End numerals.

(** ** [main] *)

Section main_run.
Implicit Types (lines : list string) (good bad : list Z).

Lemma sector_range_zero (b : Z) : sector_range b 0 = (0, -1).
Proof. unfold sector_range, block_to_sector. f_equal; lia. Qed.

Lemma sector_ranges_of_zero bad : sector_ranges_of bad 0 = (λ _, (0, -1)) <$> bad.
Proof.
  rewrite sector_ranges_of_fmap. apply list_fmap_ext. intros _ b _.
  apply sector_range_zero.
Qed.

Lemma float_limit_big : 2 ≤ float_limit.
Proof. by vm_compute. Qed.

Lemma truediv_zero (b : Z) : b ≠ 0 → truediv 0 b = Ok ().
Proof.
  intros Hb. unfold truediv. rewrite decide_False by done.
  rewrite decide_True; [done|]. pose proof float_limit_big. simpl. lia.
Qed.

(** The share of bad blocks, [len(bad_blocks) / total_blocks], is computed
    without error once there is a bad block. *)
Lemma truediv_invert_blocks good (total_blocks : Z) :
  invert_blocks good total_blocks ≠ [] →
  truediv (len (invert_blocks good total_blocks)) total_blocks = Ok ().
Proof.
  intros Hbad.
  assert (len (invert_blocks good total_blocks) ≤ Z.of_nat (Z.to_nat total_blocks)) as Hlen.
  { unfold len, invert_blocks, range. apply inj_le.
    etrans; [apply length_filter|]. by rewrite length_seqZ. }
  assert (0 < total_blocks) as Hpos.
  { destruct (decide (0 < total_blocks)); [done|].
    rewrite invert_blocks_nil in Hbad by lia. done. }
  unfold truediv. rewrite decide_False by lia.
  rewrite decide_True; [done|]. pose proof float_limit_big. unfold len in *. nia.
Qed.

Lemma len_invert_blocks good (total_blocks : Z) :
  0 ≤ total_blocks → 0 ≤ len (invert_blocks good total_blocks) ≤ total_blocks.
Proof.
  intros Htb. unfold len, invert_blocks, range. split; [lia|].
  pose proof (length_filter (λ b, b ∉ set_of good) (seqZ 0 total_blocks)) as Hlen.
  rewrite length_seqZ in Hlen. lia.
Qed.

(** With a total that [str] accepts, it accepts every bad block and their
    number. *)
Lemma invert_blocks_printable good (total_blocks : Z) :
  printable total_blocks →
  Forall printable (invert_blocks good total_blocks) ∧
  printable (len (invert_blocks good total_blocks)).
Proof.
  intros Hp. split.
  - apply Forall_forall. intros b [Hb _]%elem_of_invert_blocks.
    apply (printable_mono b total_blocks); [lia|done].
  - destruct (decide (0 ≤ total_blocks)) as [Htb|Htb].
    + pose proof (len_invert_blocks good total_blocks Htb).
      apply (printable_mono _ total_blocks); [lia|done].
    + rewrite invert_blocks_nil by lia. by apply printable_small.
Qed.

Lemma total_blocks_printable (total_blocks_input : string) (total_blocks : Z) :
  (if total_blocks_input is "" then Ok 10000 else py_int total_blocks_input)
    = Ok total_blocks →
  printable total_blocks.
Proof.
  destruct total_blocks_input as [|c r].
  - intros [= <-]. by apply printable_small.
  - apply py_int_printable.
Qed.

(** The lines written for sector ranges that [str] accepts. *)
Lemma sector_line_printable (r : Z * Z) :
  run_printable r →
  sector_line r = Ok (decimal r.1 +:+ " " +:+ decimal r.2 +:+ newline).
Proof.
  intros [H1 H2]. unfold sector_line. by rewrite !py_str_printable by done.
Qed.

Lemma map_result_sector_line (rs : list (Z * Z)) :
  Forall run_printable rs →
  map_result sector_line rs
    = Ok ((λ r, decimal r.1 +:+ " " +:+ decimal r.2 +:+ newline) <$> rs).
Proof.
  induction 1 as [|r rs Hr _ IH]; [done|].
  cbn [map_result]. rewrite sector_line_printable, IH by done. done.
Qed.
End main_run.

(** C6, as the code has it.  [main] has no check of the scale factor: when
    [sectors_per_block = total_sectors // total_blocks] is [0] no error is
    raised for it.  If moreover the drive size prints as a float and the
    pasted text parses without error, then the run ends at one of the two
    ordinary early returns (no good block parsed, or no bad block left),
    or it writes the files, with the line [0 -1] in
    [ntfsmarkbad_sectors.txt] for every bad block. *)
Theorem main_zero_scale (total_sectors_line total_blocks_line : string)
    (lines : list string) (total_sectors total_blocks : Z) (good : list Z) :
  strip total_sectors_line ≠ "" →
  py_int (strip total_sectors_line) = Ok total_sectors →
  (if strip total_blocks_line is "" then Ok 10000
   else py_int (strip total_blocks_line)) = Ok total_blocks →
  floordiv total_sectors total_blocks = Ok 0 →
  Z.abs (total_sectors * 512) < float_limit →
  parse_blocks (join newline lines) = Ok good →
  main total_sectors_line total_blocks_line lines =
    Ok (if good is [] then NoValidBlocks else
        let bad := invert_blocks good total_blocks in
        if bad is [] then NoBadBlocks else
        Generated {|
          ntfsmarkbad_sectors_txt := join "" ((λ _, "0 -1" +:+ newline) <$> bad);
          bad_block_ranges_txt :=
            "Bad blocks: " +:+ join ", " (render <$> runs bad) +:+ newline
            +:+ newline +:+ "Total: " +:+ decimal (len bad) +:+ " bad blocks" +:+ newline
        |}).
Proof.
  intros Hne Hts Htb Hdiv Hfloat Hgood. unfold main.
  destruct (strip total_sectors_line) as [|c r] eqn:Hs; [done|].
  rewrite Hts. cbn [mbind result_bind]. rewrite Htb. cbn [mbind result_bind].
  rewrite Hdiv. cbn [mbind result_bind].
  unfold float_of_int. rewrite decide_True by done. cbn [mbind result_bind].
  rewrite Z.mul_0_l, truediv_zero by done. cbn [mbind result_bind].
  rewrite Hgood. cbn [mbind result_bind]. destruct good as [|g good]; [done|].
  pose proof (truediv_invert_blocks (g :: good) total_blocks) as Htd.
  destruct (invert_blocks_printable (g :: good) total_blocks) as [Hpb Hpl];
    [by eapply total_blocks_printable|].
  destruct (invert_blocks (g :: good) total_blocks) as [|b bad]; [done|].
  rewrite Z.mul_0_r, Z.mul_0_l, truediv_zero, Htd by done.
  cbn [mbind result_bind].
  rewrite create_ranges_printable by done. cbn [mbind result_bind].
  rewrite sector_ranges_of_zero, map_result_sector_line.
  - cbn [mbind result_bind]. rewrite py_str_printable by done.
    cbn [mbind result_bind]. by rewrite <-list_fmap_compose.
  - apply Forall_fmap, Forall_true. intros b'. split; by apply printable_small.
Qed.

Lemma main_zero_scale_witness :
  strip "5" ≠ "" ∧
  py_int (strip "5") = Ok 5 ∧
  (if strip "10" is "" then Ok 10000 else py_int (strip "10")) = Ok 10 ∧
  floordiv 5 10 = Ok 0 ∧
  Z.abs (5 * 512) < float_limit ∧
  parse_blocks (join newline ["0"]) = Ok [0] ∧
  main "5" "10" ["0"] =
    Ok (Generated {|
      ntfsmarkbad_sectors_txt := join "" (replicate 9 ("0 -1" +:+ newline));
      bad_block_ranges_txt :=
        "Bad blocks: 1-9" +:+ newline +:+ newline +:+ "Total: 9 bad blocks" +:+ newline
    |}).
Proof.
  assert (strip "5" ≠ "") as H by (vm_compute; discriminate).
  split_and!; [exact H|reflexivity..|].
  exact (main_zero_scale "5" "10" ["0"] 5 10 [0] H eq_refl eq_refl eq_refl eq_refl eq_refl).
Defined.

(** C6, as stated, fails: with [total_sectors = 5], [total_blocks = 10] and
    the good block [0] the scale factor is [0], and the run does not raise
    but writes nine sector ranges [0 -1]. *)
Lemma main_degenerate_scale_not_rejected :
  floordiv 5 10 = Ok 0 ∧
  main "5" "10" ["0"] =
    Ok (Generated {|
      ntfsmarkbad_sectors_txt := join "" (replicate 9 ("0 -1" +:+ newline));
      bad_block_ranges_txt :=
        "Bad blocks: 1-9" +:+ newline +:+ newline +:+ "Total: 9 bad blocks" +:+ newline
    |}) ∧
  ¬ ∃ e, main "5" "10" ["0"] = Raise e.
Proof.
  split; [done|]. split; [by vm_compute|]. intros [e He]. by vm_compute in He.
Qed.


(** * Further properties *)

(** ** More on [invert_blocks] *)

Section invert_blocks_more.
Implicit Types (good : list Z) (total b : Z).

Lemma range_NoDup total : NoDup (range total).
Proof. apply NoDup_seqZ. Qed.

Lemma length_range total : length (range total) = Z.to_nat total.
Proof. apply length_seqZ. Qed.

(** The indices of the universe that are good, as the list the
    comprehension of [invert_blocks] leaves out. *)
Lemma kept_out_set good total :
  list_to_set (filter (λ b, ¬ (b ∉ set_of good)) (range total))
    = set_of good ∩ set_of (range total).
Proof.
  apply set_eq. intros b. unfold set_of.
  rewrite elem_of_list_to_set, list_elem_of_filter, elem_of_intersection,
    !elem_of_list_to_set.
  split; [intros [Hb ?]; split; [by apply dec_stable|done]|].
  intros [? ?]. split; [by intros ?|done].
Qed.
Lemma filter_all {A} (P : A → Prop) `{!∀ x, Decision (P x)} (l : list A) :
  (∀ x, x ∈ l → P x) → filter P l = l.
Proof.
  induction l as [|x l IH]; intros Hl; [done|].
  rewrite filter_cons_True by (apply Hl; by left).
  f_equal. apply IH. intros y Hy. apply Hl. by right.
Qed.
End invert_blocks_more.

(** X1. The number of bad blocks and the number of distinct good blocks
    inside the universe add up to [total_blocks]. *)
Theorem invert_blocks_count (good : list Z) (total_blocks : Z) :
  0 ≤ total_blocks →
  len (invert_blocks good total_blocks)
    + Z.of_nat (size (set_of good ∩ set_of (range total_blocks)))
  = total_blocks.
Proof.
  intros Htotal. rewrite <-kept_out_set.
  rewrite size_list_to_set by apply NoDup_filter, range_NoDup.
  pose proof (filter_app_complement (λ b, b ∉ set_of good) (range total_blocks)) as Hperm.
  apply Permutation_length in Hperm. rewrite length_app, length_range in Hperm.
  unfold len, invert_blocks. lia.
Qed.

Lemma invert_blocks_count_witness :
  0 ≤ 10 ∧
  len (invert_blocks [2; 5; 5; 9; 12] 10)
    + Z.of_nat (size (set_of [2; 5; 5; 9; 12] ∩ set_of (range 10)))
  = 10.
Proof. split; [lia|]. apply (invert_blocks_count [2; 5; 5; 9; 12] 10). lia. Defined.

(** X2. Inverting twice gives back the good blocks that lie inside the
    universe, each once and in ascending order. *)
Theorem invert_blocks_twice (good : list Z) (total_blocks : Z) :
  invert_blocks (invert_blocks good total_blocks) total_blocks
    = sorted (set_of good ∩ set_of (range total_blocks)).
Proof.
  apply (StronglySorted_unique_strong Z.lt).
  - intros; lia.
  - apply invert_blocks_sorted.
  - apply ascending_lt, sorted_ascending.
  - apply NoDup_Permutation.
    + apply invert_blocks_NoDup.
    + apply sorted_ascending.
    + intros b. rewrite elem_of_sorted, !elem_of_invert_blocks, elem_of_intersection.
      unfold set_of. rewrite !elem_of_list_to_set, elem_of_range.
      destruct (decide (b ∈ good)); intuition.
Qed.

(** X3. No bad block is left exactly when every index of the universe is
    among the good blocks; in particular an empty good list leaves the
    whole universe. *)
Theorem invert_blocks_nil_iff (good : list Z) (total_blocks : Z) :
  (invert_blocks good total_blocks = [] ↔
     ∀ b, 0 ≤ b < total_blocks → b ∈ good) ∧
  invert_blocks [] total_blocks = range total_blocks.
Proof.
  split.
  - split.
    + intros Hnil b Hb. destruct (decide (b ∈ good)) as [|Hn]; [done|].
      assert (b ∈ invert_blocks good total_blocks) as Hin
        by by apply elem_of_invert_blocks.
      rewrite Hnil in Hin. by apply not_elem_of_nil in Hin.
    + intros Hall. apply elem_of_nil_inv. intros b [Hb Hn]%elem_of_invert_blocks.
      by apply Hn, Hall.
  - unfold invert_blocks. apply filter_all. intros b _. set_solver.
Qed.

(** ** More on [create_ranges] *)

Section create_ranges_more.
Implicit Types (blocks l : list Z) (s e a b : Z).

(** A run of consecutive integers extends the current range and opens no
    new one. *)
Lemma runs_from_consecutive (k : nat) s e :
  runs_from s e (seqZ (e + 1) (Z.of_nat k)) = [(s, e + Z.of_nat k)].
Proof.
  revert e. induction k as [|k IH]; intros e.
  - rewrite seqZ_nil by done. simpl. do 2 f_equal. lia.
  - rewrite seqZ_cons by lia. cbn [runs_from]. rewrite decide_True by done.
    replace (Z.pred (Z.of_nat (S k))) with (Z.of_nat k) by lia.
    replace (Z.succ (e + 1)) with (e + 1 + 1) by lia.
    rewrite IH. do 2 f_equal. lia.
Qed.

(** A gap closes the current range; the scan starts afresh behind it. *)
Lemma runs_from_app_gap l1 l2 s e a b :
  last (e :: l1) = Some a → b ≠ a + 1 →
  runs_from s e (l1 ++ b :: l2) = runs_from s e l1 ++ runs_from b b l2.
Proof.
  revert s e. induction l1 as [|x l1 IH]; intros s e Hlast Hgap.
  - simplify_eq/=. by rewrite decide_False.
  - rewrite last_cons_cons in Hlast. cbn [app runs_from]. case_decide.
    + by apply IH.
    + cbn [app]. f_equal. by apply IH.
Qed.

Lemma length_runs_from s e l :
  length (runs_from s e l) = S (length (filter gap (zip (e :: l) l))).
Proof.
  revert s e. induction l as [|b l IH]; intros s e; [done|].
  cbn [runs_from zip zip_with]. destruct (decide (b = e + 1)) as [->|Hb].
  - rewrite filter_cons_False by (unfold gap; simpl; by intros ?). apply IH.
  - rewrite filter_cons_True by done. cbn [length]. by rewrite IH.
Qed.
End create_ranges_more.

(** X4. Whenever [create_ranges] returns, on a list of integers sorted or
    not, expanding the texts gives the list back, in its order. *)
Theorem create_ranges_round_trip_any (blocks : list Z) (texts : list string) :
  create_ranges blocks = Ok texts → expand_ranges texts = Some blocks.
Proof.
  intros ->%create_ranges_Ok.
  unfold expand_ranges. rewrite read_render. cbn [mbind option_bind].
  by rewrite expand_runs.
Qed.

Lemma create_ranges_round_trip_any_witness :
  create_ranges [5; 3; 4; 4; 5; 6] = Ok ["5"; "3-4"; "4-6"] ∧
  expand_ranges ["5"; "3-4"; "4-6"] = Some [5; 3; 4; 4; 5; 6].
Proof.
  split; [reflexivity|].
  apply (create_ranges_round_trip_any [5; 3; 4; 4; 5; 6] ["5"; "3-4"; "4-6"]).
  reflexivity.
Defined.

(** X5. Whenever [create_ranges] returns, on a list of integers sorted or
    not, each text reads as an interval with [start <= end], and a text
    never continues its predecessor: [end + 1 = start] does not occur
    between neighbours. *)
Theorem create_ranges_apart_any (blocks : list Z) (texts : list string) :
  create_ranges blocks = Ok texts →
  ∃ rs,
    mapM read_range texts = Some rs ∧
    Forall (λ r, r.1 ≤ r.2) rs ∧
    (∀ i r r', rs !! i = Some r → rs !! S i = Some r' → r.2 + 1 ≠ r'.1).
Proof.
  intros ->%create_ranges_Ok. exists (runs blocks).
  split; [apply read_render|]. split; [apply runs_wf|].
  destruct blocks as [|b l]; [intros [|?] ?? [=]|]. intros i r r'.
  apply (Sorted_lookup (λ r r' : Z * Z, r.2 + 1 ≠ r'.1)), runs_from_apart.
Qed.

Lemma create_ranges_apart_any_witness :
  create_ranges [5; 3; 4; 4; 5; 6] = Ok ["5"; "3-4"; "4-6"] ∧
  ∃ rs,
    mapM read_range ["5"; "3-4"; "4-6"] = Some rs ∧
    Forall (λ r, r.1 ≤ r.2) rs ∧
    (∀ i r r', rs !! i = Some r → rs !! S i = Some r' → r.2 + 1 ≠ r'.1).
Proof.
  split; [reflexivity|].
  apply (create_ranges_apart_any [5; 3; 4; 4; 5; 6] ["5"; "3-4"; "4-6"]).
  reflexivity.
Defined.

(** X6. A run of consecutive integers [a, a+1, ..., b-1] whose two ends
    [str] accepts is written as one text: the numeral of [a] when the run
    has one element, and otherwise the numerals of [a] and [b-1] joined by
    a dash. *)
Theorem create_ranges_consecutive (a b : Z) (first last : string) :
  a < b → py_str a = Ok first → py_str (b - 1) = Ok last →
  create_ranges (range_from a b)
    = Ok [if decide (b = a + 1) then first else first +:+ "-" +:+ last].
Proof.
  intros Hab [Ha ->]%py_str_Ok [Hb ->]%py_str_Ok.
  rewrite create_ranges_closed. unfold range_from.
  rewrite seqZ_cons by lia. cbn [runs].
  replace (Z.pred (b - a)) with (Z.of_nat (Z.to_nat (b - a - 1))) by lia.
  replace (Z.succ a) with (a + 1) by lia.
  rewrite runs_from_consecutive.
  replace (a + Z.of_nat (Z.to_nat (b - a - 1))) with (b - 1) by lia.
  rewrite decide_True by (constructor; [by split|constructor]).
  unfold render, range_form. cbn [fmap list_fmap fst snd]. do 2 f_equal.
  destruct (decide (b = a + 1)) as [->|Hne].
  - by rewrite decide_False by lia.
  - by rewrite decide_True by lia.
Qed.

Lemma create_ranges_consecutive_witness :
  3 < 9 ∧ py_str 3 = Ok "3" ∧ py_str (9 - 1) = Ok "8" ∧
  create_ranges (range_from 3 9)
    = Ok [if decide (9 = 3 + 1) then "3" else "3" +:+ "-" +:+ "8"].
Proof.
  split_and!; [lia|reflexivity|reflexivity|].
  apply (create_ranges_consecutive 3 9 "3" "8"); [lia|reflexivity..].
Defined.

(** X7. Across a gap the texts of a concatenation are the texts of the two
    parts: if [l1] ends with [a], [l2] starts with [b] and [b] is not
    [a + 1], then [create_ranges (l1 ++ l2)] is the texts of [l1] followed
    by those of [l2]. *)
Theorem create_ranges_app_gap (l1 l2 : list Z) (a b : Z) (texts1 texts2 : list string) :
  last l1 = Some a → head l2 = Some b → b ≠ a + 1 →
  create_ranges l1 = Ok texts1 → create_ranges l2 = Ok texts2 →
  create_ranges (l1 ++ l2) = Ok (texts1 ++ texts2).
Proof.
  intros Hlast Hhead Hgap. rewrite !create_ranges_closed.
  destruct (decide (Forall run_printable (runs l1))) as [H1|]; [|done].
  destruct (decide (Forall run_printable (runs l2))) as [H2|]; [|done].
  intros [= <-] [= <-].
  assert (runs (l1 ++ l2) = runs l1 ++ runs l2) as ->.
  { destruct l1 as [|x l1]; [done|]. destruct l2 as [|y l2]; simplify_eq/=.
    by apply runs_from_app_gap with a. }
  rewrite decide_True by (by apply Forall_app). by rewrite fmap_app.
Qed.

Lemma create_ranges_app_gap_witness :
  last [1; 2; 3] = Some 3 ∧ head [7; 8] = Some 7 ∧ 7 ≠ 3 + 1 ∧
  create_ranges [1; 2; 3] = Ok ["1-3"] ∧ create_ranges [7; 8] = Ok ["7-8"] ∧
  create_ranges ([1; 2; 3] ++ [7; 8]) = Ok (["1-3"] ++ ["7-8"]).
Proof.
  split_and!; [reflexivity|reflexivity|lia|reflexivity|reflexivity|].
  apply (create_ranges_app_gap [1; 2; 3] [7; 8] 3 7 ["1-3"] ["7-8"]);
    (reflexivity || lia).
Defined.

(** X8. Whenever [create_ranges] returns on a non-empty input, the number
    of texts is one more than the number of neighbouring pairs [(x, y)] of
    the input with [y <> x + 1]. *)
Theorem create_ranges_length (blocks : list Z) (texts : list string) :
  blocks ≠ [] → create_ranges blocks = Ok texts →
  length texts = S (length (filter gap (neighbours blocks))).
Proof.
  intros Hne ->%create_ranges_Ok.
  destruct blocks as [|b l]; [done|].
  rewrite length_fmap. unfold neighbours. cbn [runs drop]. rewrite drop_0.
  apply length_runs_from.
Qed.

Lemma create_ranges_length_witness :
  [0; 1; 3; 4; 6; 7; 8] ≠ [] ∧
  create_ranges [0; 1; 3; 4; 6; 7; 8] = Ok ["0-1"; "3-4"; "6-8"] ∧
  length ["0-1"; "3-4"; "6-8"]
    = S (length (filter gap (neighbours [0; 1; 3; 4; 6; 7; 8]))).
Proof.
  split; [done|]. split; [reflexivity|].
  apply (create_ranges_length [0; 1; 3; 4; 6; 7; 8] ["0-1"; "3-4"; "6-8"]);
    [done|reflexivity].
Defined.

Lemma elem_of_concat {A} (ls : list (list A)) (x : A) :
  x ∈ concat ls ↔ ∃ l, x ∈ l ∧ l ∈ ls.
Proof.
  induction ls as [|l ls IH]; simpl.
  - split; [by intros ?%elem_of_nil|by intros (l & _ & ?%elem_of_nil)].
  - rewrite elem_of_app, IH. split.
    + intros [Hx|(l' & Hx & Hl')]; [exists l; split; [done|by left]|].
      exists l'. split; [done|by right].
    + intros (l' & Hx & [->|Hl']%elem_of_cons); [by left|]. right. by exists l'.
Qed.

(** X26. [create_ranges] fails exactly when some integer of the list has
    more than [max_str_digits] (4300) digits; the exception is then
    [ValueError], and never [IndexError]. *)
Theorem create_ranges_raises_iff (blocks : list Z) :
  ((∃ e, create_ranges blocks = Raise e) ↔ ¬ Forall printable blocks) ∧
  (∀ e, create_ranges blocks = Raise e → e = ValueError).
Proof.
  rewrite create_ranges_closed.
  destruct (decide (Forall run_printable (runs blocks))) as [Hr|Hr].
  - split; [|done]. split; [by intros [e [=]]|]. intros Hn. destruct Hn.
    apply Forall_forall. intros b Hb.
    rewrite <-(expand_runs blocks) in Hb.
    apply elem_of_concat in Hb as (l & Hb & (r & -> & Hin)%list_elem_of_fmap).
    eapply Forall_forall in Hr as [H1 H2]; [|done].
    apply elem_of_seqZ in Hb. apply printable_iff in H1, H2. apply printable_iff. lia.
  - split; [|by intros e [= <-]]. split; [|by eauto].
    intros _ Hp. by apply Hr, runs_printable.
Qed.

(** ** More on [parse_blocks] *)

Section parse_blocks_more.
Implicit Types (data line t : string) (blocks good : list Z) (lines : list string).

Lemma isdigit_not_special (c : ascii) :
  isdigit c = true →
  isspace_int c = false ∧ Ascii.eqb c "-" = false ∧
  Ascii.eqb c "+" = false ∧ Ascii.eqb c "_" = false.
Proof.
  destruct c as [[] [] [] [] [] [] [] []]; vm_compute; (discriminate || done).
Qed.

Lemma isdecimal_isdigit (c : ascii) : isdecimal c = true → isdigit c = true.
Proof. unfold isdigit. by intros ->. Qed.

Lemma rstrip_keeps (p sp : ascii → bool) (s : string) :
  (∀ c, p c = true → sp c = false) →
  all_chars p s = true → rstrip_with sp s = s.
Proof.
  intros Hp. induction s as [|c s IH]; simpl; [done|].
  intros [Hc Hs]%andb_prop. rewrite (IH Hs), (Hp c Hc). by destruct s.
Qed.

(** On a text of digits [int_digits] succeeds exactly when all of them are
    decimal. *)
Lemma int_digits_isdigit (c : ascii) (s : string) :
  all_chars isdigit (String c s) = true →
  if all_chars isdecimal (String c s)
  then ∃ ds, int_digits (String c s) = Some ds ∧ Forall (λ d, 0 ≤ d ≤ 9) ds
  else int_digits (String c s) = None.
Proof.
  revert c. induction s as [|c' s IH]; intros c [Hc Hs]%andb_prop.
  - simpl. destruct (isdecimal c) eqn:Hdec; simpl; [|done].
    eexists. split; [done|]. repeat constructor; apply (isdecimal_digit c Hdec).
  - specialize (IH c' Hs). cbn [int_digits all_chars] in *.
    destruct (isdecimal c) eqn:Hdec; simpl; [|done].
    apply andb_prop in Hs as [Hc' _].
    destruct (isdigit_not_special c' Hc') as (_ & _ & _ & ->).
    destruct (isdecimal c' && all_chars isdecimal s).
    + destruct IH as (ds & -> & Hds). eexists. split; [done|].
      constructor; [apply (isdecimal_digit c Hdec)|done].
    + by rewrite IH.
Qed.

(** [int()] on a token that passed [isdigit]. *)
Lemma py_int_isdigit t :
  str_isdigit t = true →
  if bad_token t then py_int t = Raise ValueError
  else all_chars isdecimal t = true ∧ ∃ n, py_int t = Ok n ∧ 0 ≤ n.
Proof.
  intros Hdig. unfold bad_token. rewrite Hdig. cbn [andb].
  destruct (all_chars isdecimal t) eqn:Hdec; cbn [negb orb].
  - assert (t ≠ "") as Hne by (by intros ->).
    rewrite (py_int_decimal_value t Hne Hdec).
    destruct (Nat.leb_spec (String.length t) max_str_digits) as [Hle|Hgt]; cbn [negb].
    + rewrite decide_True by done. split; [done|]. eexists. split; [done|].
      by apply digits_value_nonneg, char_digits_range.
    + rewrite decide_False by lia. done.
  - destruct t as [|c s]; [done|]. unfold str_isdigit in Hdig.
    pose proof (int_digits_isdigit c s Hdig) as Hint. rewrite Hdec in Hint.
    apply andb_prop in Hdig as Hdig'. destruct Hdig' as [Hc _].
    destruct (isdigit_not_special c Hc) as (Hsp & Hm & Hp & _).
    unfold py_int. cbn [lstrip_with]. rewrite Hsp.
    rewrite (rstrip_keeps isdigit)
      by (done || intros c' Hc'; apply (isdigit_not_special c' Hc')).
    by rewrite Hm, Hp, Hint.
Qed.

Lemma parse_line_closed blocks line :
  parse_line blocks line =
    if bad_line line then Raise ValueError
    else Ok (blocks ++ option_list (line_number line)).
Proof.
  unfold parse_line, bad_line, line_number, first_token.
  destruct (split line) as [|p0 parts]; simpl; [by rewrite app_nil_r|].
  destruct (str_isdigit p0) eqn:Hdig; simpl.
  - pose proof (py_int_isdigit p0 Hdig) as Hint.
    destruct (bad_token p0); simpl.
    + by rewrite Hint.
    + by destruct Hint as (_ & n & -> & _).
  - unfold bad_token. rewrite Hdig. simpl. by rewrite app_nil_r.
Qed.

(** The loop of [parse_blocks] in closed form. *)
Lemma for_each_parse_line_closed lines blocks :
  for_each parse_line blocks lines =
    if existsb bad_line lines then Raise ValueError
    else Ok (blocks ++ omap line_number lines).
Proof.
  revert blocks. induction lines as [|line lines IH]; intros blocks; simpl.
  - by rewrite app_nil_r.
  - rewrite parse_line_closed. destruct (bad_line line); simpl; [done|].
    rewrite IH. destruct (existsb bad_line lines); [done|].
    f_equal. rewrite <-app_assoc. f_equal. by destruct (line_number line).
Qed.

Lemma parse_blocks_closed data :
  parse_blocks data =
    let lines := split_on LF (strip data) in
    if existsb bad_line lines then Raise ValueError
    else Ok (sorted (set_of (omap line_number lines))).
Proof.
  unfold parse_blocks. rewrite for_each_parse_line_closed. simpl.
  by destruct (existsb bad_line _).
Qed.

Lemma existsb_Permutation {A} (f : A → bool) (l k : list A) :
  l ≡ₚ k → existsb f l = existsb f k.
Proof.
  induction 1 as [|x l k _ IH|x y l|l k m _ IH1 _ IH2]; simpl.
  - done.
  - by rewrite IH.
  - destruct (f x), (f y); done.
  - by rewrite IH1.
Qed.

Lemma line_number_nonneg line n : line_number line = Some n → 0 ≤ n.
Proof.
  unfold line_number. destruct (first_token line) as [t|]; simpl; [|done].
  destruct (str_isdigit t) eqn:Hdig; [|done].
  pose proof (py_int_isdigit t Hdig) as Hint.
  destruct (bad_token t).
  - by rewrite Hint.
  - destruct Hint as (_ & m & -> & Hm). by intros [= <-].
Qed.
End parse_blocks_more.

(** X9. [parse_blocks] fails exactly when some line of the stripped text
    has a first token that passes [isdigit] and is either not made of
    decimal digits only or longer than [max_str_digits] (4300) digits; the
    exception is then [ValueError], never [IndexError]. *)
Theorem parse_blocks_raises_iff (data : string) :
  ((∃ e, parse_blocks data = Raise e) ↔
     ∃ line t, line ∈ split_on LF (strip data) ∧ first_token line = Some t ∧
               str_isdigit t = true ∧
               (all_chars isdecimal t = false ∨
                (max_str_digits < String.length t)%nat)) ∧
  (∀ e, parse_blocks data = Raise e → e = ValueError).
Proof.
  rewrite parse_blocks_closed. cbn zeta.
  destruct (existsb bad_line (split_on LF (strip data))) eqn:Hbad.
  - split; [|by intros e [= <-]]. split; [intros _|by eauto].
    apply existsb_exists in Hbad as (line & Hin%list_elem_of_In & Hline).
    unfold bad_line in Hline. destruct (first_token line) as [t|] eqn:Ht; [|done].
    apply andb_prop in Hline as [Hdig Hbad]. exists line, t. split_and!; try done.
    apply orb_prop in Hbad as [Hdec%negb_true_iff|Hlen%negb_true_iff]; [by left|].
    right. apply Nat.leb_gt in Hlen. lia.
  - split; [|done]. split; [by intros [e [=]]|].
    intros (line & t & Hin & Ht & Hdig & Hwhy).
    assert (existsb bad_line (split_on LF (strip data)) = true) as Hex; [|congruence].
    apply existsb_exists. exists line. split; [by apply list_elem_of_In|].
    unfold bad_line, bad_token. rewrite Ht, Hdig. cbn [andb].
    destruct Hwhy as [->|Hlen]; [done|].
    apply orb_true_intro. right. apply negb_true_iff, Nat.leb_gt. lia.
Qed.

(** X10. What [parse_blocks] returns is strictly ascending (sorted, no
    duplicates) and non-negative, and a number is in it exactly when it is
    the value of the first token, made of decimal digits, of some line. *)
Theorem parse_blocks_result (data : string) (good : list Z) :
  parse_blocks data = Ok good →
  StronglySorted Z.lt good ∧
  Forall (λ n, 0 ≤ n) good ∧
  (∀ n, n ∈ good ↔
     ∃ line t, line ∈ split_on LF (strip data) ∧ first_token line = Some t ∧
               t ≠ "" ∧ all_chars isdecimal t = true ∧ py_int t = Ok n).
Proof.
  intros Hparse. split; [by eapply parse_blocks_ascending|].
  rewrite parse_blocks_closed in Hparse. cbn zeta in Hparse.
  destruct (existsb bad_line _) eqn:Hbad; [done|]. injection Hparse as <-.
  assert (∀ n, n ∈ sorted (set_of (omap line_number (split_on LF (strip data)))) ↔
               ∃ line, line ∈ split_on LF (strip data) ∧ line_number line = Some n) as Hmem.
  { intros n. unfold set_of.
    by rewrite elem_of_sorted, elem_of_list_to_set, list_elem_of_omap. }
  split.
  - apply Forall_forall. intros n (line & _ & Hn)%Hmem. by eapply line_number_nonneg.
  - intros n. rewrite Hmem. split.
    + intros (line & Hin & Hn). unfold line_number in Hn.
      destruct (first_token line) as [t|] eqn:Ht; simpl in Hn; [|done].
      destruct (str_isdigit t) eqn:Hdig; [|done].
      pose proof (py_int_isdigit t Hdig) as Hint.
      destruct (bad_token t).
      * by rewrite Hint in Hn.
      * destruct Hint as (Hdec & m & Hm & _). rewrite Hm in Hn. injection Hn as ->.
        exists line, t. split_and!; try done. by intros ->.
    + intros (line & t & Hin & Ht & Hne & Hdec & Hn). exists line. split; [done|].
      unfold line_number. rewrite Ht. simpl.
      assert (str_isdigit t = true) as ->.
      { destruct t as [|c t]; [done|]. unfold str_isdigit.
        clear -Hdec. revert Hdec. generalize (String c t) as u.
        induction u as [|c' u IH]; simpl; [done|].
        intros [Hc Hu]%andb_prop. by rewrite (isdecimal_isdigit c' Hc), IH. }
      by rewrite Hn.
Qed.

Lemma parse_blocks_result_witness :
  parse_blocks ("12 ok" +:+ newline +:+ "x 3" +:+ newline +:+ "007") = Ok [7; 12] ∧
  StronglySorted Z.lt [7; 12] ∧
  Forall (λ n, 0 ≤ n) [7; 12] ∧
  (∀ n, n ∈ [7; 12] ↔
     ∃ line t,
       line ∈ split_on LF (strip ("12 ok" +:+ newline +:+ "x 3" +:+ newline +:+ "007")) ∧
       first_token line = Some t ∧
       t ≠ "" ∧ all_chars isdecimal t = true ∧ py_int t = Ok n).
Proof.
  assert (parse_blocks ("12 ok" +:+ newline +:+ "x 3" +:+ newline +:+ "007") = Ok [7; 12])
    as H by reflexivity.
  split; [exact H|]. exact (parse_blocks_result _ _ H).
Defined.

(** X11. The order of the lines does not matter: two texts whose stripped
    forms have the same lines up to order give the same result, be it a
    list or an exception. *)
Theorem parse_blocks_order (data data' : string) :
  split_on LF (strip data) ≡ₚ split_on LF (strip data') →
  parse_blocks data = parse_blocks data'.
Proof.
  intros Hperm. rewrite !parse_blocks_closed. cbn zeta.
  rewrite (existsb_Permutation _ _ _ Hperm).
  destruct (existsb bad_line _); [done|]. do 2 f_equal.
  unfold set_of. apply list_to_set_perm_L. by rewrite Hperm.
Qed.

Lemma parse_blocks_order_witness :
  split_on LF (strip ("5" +:+ newline +:+ "2 x" +:+ newline +:+ "9"))
    ≡ₚ split_on LF (strip ("9" +:+ newline +:+ "5" +:+ newline +:+ "2 x")) ∧
  parse_blocks ("5" +:+ newline +:+ "2 x" +:+ newline +:+ "9")
    = parse_blocks ("9" +:+ newline +:+ "5" +:+ newline +:+ "2 x").
Proof.
  assert (split_on LF (strip ("5" +:+ newline +:+ "2 x" +:+ newline +:+ "9"))
            ≡ₚ split_on LF (strip ("9" +:+ newline +:+ "5" +:+ newline +:+ "2 x"))) as H.
  { change (["5"; "2 x"; "9"] ≡ₚ ["9"; "5"; "2 x"]).
    by rewrite (Permutation_app_comm ["5"; "2 x"] ["9"]). }
  split; [exact H|]. exact (parse_blocks_order _ _ H).
Defined.

(** ** White space around the text *)

Section surrounding_space.
Implicit Types (s t w cur : string) (c : ascii).

Lemma string_app_cons c s t : String c s +:+ t = String c (s +:+ t).
Proof. reflexivity. Qed.

Lemma string_app_assoc s t w : (s +:+ t) +:+ w = s +:+ (t +:+ w).
Proof.
  induction s as [|c s IH]; [done|]. rewrite !string_app_cons. by f_equal.
Qed.

Lemma string_app_nil_r s : s +:+ "" = s.
Proof. induction s as [|c s IH]; [done|]. rewrite string_app_cons. by f_equal. Qed.

Lemma split_on_cons sep s : ∃ l0 ls, split_on sep s = l0 :: ls.
Proof.
  induction s as [|c s (l0 & ls & IH)]; simpl; [by eauto|].
  destruct (Ascii.eqb c sep); [by eauto|]. rewrite IH. by eauto.
Qed.

Lemma isspace_LF : isspace LF = true.
Proof. reflexivity. Qed.

Lemma line_tokens_cons_cases cur c s :
  line_tokens cur (String c s) =
    if Ascii.eqb c LF then split_go cur "" :: line_tokens "" s
    else if isspace c then push_token cur (line_tokens "" s)
    else line_tokens (cur +:+ String c "") s.
Proof.
  unfold line_tokens. cbn [split_on].
  destruct (Ascii.eqb c LF) eqn:Hc.
  - destruct (split_on_cons LF s) as (l0 & ls & ->). done.
  - destruct (split_on_cons LF s) as (l0 & ls & ->). cbn [split_go push_token].
    destruct (isspace c); [|done]. by destruct cur.
Qed.

Lemma line_tokens_cons cur s : ∃ h rest, line_tokens cur s = h :: rest.
Proof.
  unfold line_tokens. destruct (split_on_cons LF s) as (l0 & ls & ->). by eauto.
Qed.

Lemma push_token_app cur (tl tl' : list (list string)) :
  tl ≠ [] → push_token cur (tl ++ tl') = push_token cur tl ++ tl'.
Proof. by destruct tl. Qed.

(** White space at the end of a text adds blank lines and nothing else. *)
Lemma line_tokens_snoc cur s c :
  isspace c = true →
  line_tokens cur (s +:+ String c "")
    = line_tokens cur s ++ (if Ascii.eqb c LF then [[]] else []).
Proof.
  intros Hc. revert cur. induction s as [|d s IH]; intros cur.
  - change ("" +:+ String c "") with (String c ""). rewrite line_tokens_cons_cases, Hc.
    destruct (Ascii.eqb c LF); [done|]. unfold line_tokens. simpl.
    destruct cur; by rewrite ?app_nil_r.
  - rewrite string_app_cons, !line_tokens_cons_cases.
    destruct (Ascii.eqb d LF); [by rewrite IH|].
    destruct (isspace d); [|by rewrite IH].
    rewrite IH. apply push_token_app.
    by destruct (line_tokens_cons "" s) as (h & rest & ->).
Qed.

Lemma line_tokens_app_space cur s w :
  all_chars isspace w = true →
  line_tokens cur (s +:+ w) = line_tokens cur s ++ replicate (count_LF w) [].
Proof.
  revert s. induction w as [|c w IH]; intros s.
  - intros _. by rewrite string_app_nil_r, app_nil_r.
  - intros [Hc Hw]%andb_prop.
    replace (s +:+ String c w) with ((s +:+ String c "") +:+ w)
      by (by rewrite string_app_assoc).
    rewrite IH, line_tokens_snoc by done. rewrite <-app_assoc. f_equal.
    cbn [count_LF]. by destruct (Ascii.eqb c LF).
Qed.

(** White space at the start of a text adds blank lines and nothing else. *)
Lemma line_tokens_space_app s w :
  all_chars isspace w = true →
  line_tokens "" (w +:+ s) = replicate (count_LF w) [] ++ line_tokens "" s.
Proof.
  induction w as [|c w IH]; [done|]. intros [Hc Hw]%andb_prop.
  rewrite string_app_cons. cbn [count_LF].
  rewrite line_tokens_cons_cases, Hc, IH by done.
  destruct (Ascii.eqb c LF); [done|].
  destruct (count_LF w); simpl; [|done].
  by destruct (line_tokens_cons "" s) as (h & rest & ->).
Qed.

Lemma lstrip_split s :
  ∃ w, all_chars isspace w = true ∧ s = w +:+ lstrip_with isspace s.
Proof.
  induction s as [|c s (w & Hw & IH)]; [by exists ""|]. cbn [lstrip_with].
  destruct (isspace c) eqn:Hc; [|by exists ""].
  exists (String c w). split; [simpl; by rewrite Hc|].
  rewrite string_app_cons. by f_equal.
Qed.

Lemma rstrip_split s :
  ∃ w, all_chars isspace w = true ∧ s = rstrip_with isspace s +:+ w.
Proof.
  induction s as [|c s (w & Hw & IH)]; [by exists ""|]. cbn [rstrip_with].
  destruct (rstrip_with isspace s) as [|d r] eqn:Hr.
  - change ("" +:+ w) with w in IH. subst s. destruct (isspace c) eqn:Hc.
    + exists (String c w). split; [simpl; by rewrite Hc|done].
    + exists w. by split.
  - exists w. split; [done|]. rewrite string_app_cons. by f_equal.
Qed.

Lemma line_tokens_split s : line_tokens "" s = split <$> split_on LF s.
Proof. unfold line_tokens. by destruct (split_on_cons LF s) as (l0 & ls & ->). Qed.

Lemma omap_head_replicate (k : nat) : omap head (replicate k (@nil string)) = [].
Proof. induction k; simpl; done. Qed.

(** Stripping the text does not change the first tokens of its lines. *)
Lemma first_tokens_strip s :
  omap first_token (split_on LF (strip s)) = omap first_token (split_on LF s).
Proof.
  assert (∀ u, omap first_token (split_on LF u) = omap head (line_tokens "" u)) as Hfirst.
  { intros u. rewrite line_tokens_split. unfold first_token.
    induction (split_on LF u) as [|l ls IH]; [done|].
    cbn [omap list_omap fmap list_fmap]. by rewrite IH. }
  rewrite !Hfirst. unfold strip.
  destruct (lstrip_split s) as (w1 & Hw1 & Hs).
  destruct (rstrip_split (lstrip_with isspace s)) as (w2 & Hw2 & Hl).
  rewrite Hs at 2. rewrite Hl at 2.
  rewrite line_tokens_space_app, line_tokens_app_space by done.
  by rewrite !omap_app, !omap_head_replicate, app_nil_r.
Qed.

Lemma existsb_bad_line (lines : list string) :
  existsb bad_line lines = existsb bad_token (omap first_token lines).
Proof.
  induction lines as [|l ls IH]; [done|].
  cbn [existsb omap list_omap]. rewrite IH. unfold bad_line.
  by destruct (first_token l).
Qed.

Lemma omap_line_number (lines : list string) :
  omap line_number lines = omap token_number (omap first_token lines).
Proof.
  induction lines as [|l ls IH]; [done|].
  cbn [omap list_omap]. rewrite IH. unfold line_number.
  by destruct (first_token l).
Qed.

(** [split_on] and [join] with the same separator. *)
Lemma split_on_app sep s t :
  split_on sep (s +:+ String sep t) = split_on sep s ++ split_on sep t.
Proof.
  induction s as [|c s IH]; simpl.
  - by rewrite Ascii.eqb_refl.
  - destruct (Ascii.eqb c sep); [by rewrite IH|]. rewrite IH.
    by destruct (split_on_cons sep s) as (l0 & ls & ->).
Qed.

Lemma split_on_join (lines : list string) :
  lines ≠ [] → split_on LF (join newline lines) = lines ≫= split_on LF.
Proof.
  induction lines as [|l ls IH]; [done|]. intros _.
  destruct ls as [|l' ls]; [simpl; by rewrite app_nil_r|].
  change (join newline (l :: l' :: ls)) with (l +:+ String LF (join newline (l' :: ls))).
  rewrite split_on_app, IH by done. done.
Qed.
End surrounding_space.

Section parse_blocks_text.
Implicit Types (data s w : string) (lines : list string).

(** [parse_blocks] in terms of the first tokens of the lines of the text
    as it is given, not stripped. *)
Lemma parse_blocks_first_tokens data :
  parse_blocks data =
    let tokens := omap first_token (split_on LF data) in
    if existsb bad_token tokens then Raise ValueError
    else Ok (sorted (set_of (omap token_number tokens))).
Proof.
  rewrite parse_blocks_closed. cbn zeta.
  by rewrite existsb_bad_line, omap_line_number, first_tokens_strip.
Qed.

Lemma first_tokens_surrounded data w1 w2 :
  all_chars isspace w1 = true → all_chars isspace w2 = true →
  omap first_token (split_on LF (w1 +:+ data +:+ w2))
    = omap first_token (split_on LF data).
Proof.
  intros Hw1 Hw2.
  assert (∀ u, omap first_token (split_on LF u) = omap head (line_tokens "" u)) as Hfirst.
  { intros u. rewrite line_tokens_split. unfold first_token.
    induction (split_on LF u) as [|l ls IH]; [done|].
    cbn [omap list_omap fmap list_fmap]. by rewrite IH. }
  rewrite !Hfirst, line_tokens_space_app, line_tokens_app_space by done.
  by rewrite !omap_app, !omap_head_replicate, app_nil_r.
Qed.

Lemma first_tokens_join lines lines' :
  lines ≡ₚ lines' →
  omap first_token (split_on LF (join newline lines))
    ≡ₚ omap first_token (split_on LF (join newline lines')).
Proof.
  intros Hperm. destruct lines as [|l ls].
  - by apply Permutation_nil_l in Hperm as ->.
  - destruct lines' as [|l' ls']; [by apply Permutation_nil_r in Hperm|].
    rewrite !split_on_join by done. by rewrite Hperm.
Qed.

Lemma parse_blocks_join_order lines lines' :
  lines ≡ₚ lines' →
  parse_blocks (join newline lines) = parse_blocks (join newline lines').
Proof.
  intros Hperm%first_tokens_join. rewrite !parse_blocks_first_tokens. cbn zeta.
  rewrite (existsb_Permutation _ _ _ Hperm).
  destruct (existsb bad_token _); [done|]. do 2 f_equal.
  unfold set_of. apply list_to_set_perm_L. by rewrite Hperm.
Qed.
End parse_blocks_text.

(** X12. White space, blank lines included, in front of the text and
    behind it does not change what [parse_blocks] gives. *)
Theorem parse_blocks_surrounded (data w1 w2 : string) :
  all_chars isspace w1 = true → all_chars isspace w2 = true →
  parse_blocks (w1 +:+ data +:+ w2) = parse_blocks data.
Proof.
  intros Hw1 Hw2. rewrite !parse_blocks_first_tokens. cbn zeta.
  by rewrite first_tokens_surrounded.
Qed.

Lemma parse_blocks_surrounded_witness :
  all_chars isspace (newline +:+ "  ") = true ∧
  all_chars isspace (" " +:+ newline +:+ newline) = true ∧
  parse_blocks ((newline +:+ "  ") +:+ ("7 a" +:+ newline +:+ "3")
                +:+ (" " +:+ newline +:+ newline))
    = parse_blocks ("7 a" +:+ newline +:+ "3").
Proof.
  split; [reflexivity|]. split; [reflexivity|].
  apply (parse_blocks_surrounded ("7 a" +:+ newline +:+ "3")
           (newline +:+ "  ") (" " +:+ newline +:+ newline)); reflexivity.
Defined.

(** X13. The order in which the report lines are pasted does not matter
    to [main]: two runs on the same totals and on the same lines in a
    different order end the same way, with the same files. *)
Theorem main_lines_order (total_sectors_line total_blocks_line : string)
    (lines lines' : list string) :
  lines ≡ₚ lines' →
  main total_sectors_line total_blocks_line lines
    = main total_sectors_line total_blocks_line lines'.
Proof.
  intros Hperm%parse_blocks_join_order. unfold main.
  destruct (strip total_sectors_line) as [|a s]; [done|].
  destruct (py_int (String a s)) as [total_sectors|];
    cbn [mbind result_bind]; [|done].
  destruct (if strip total_blocks_line is "" then Ok 10000
            else py_int (strip total_blocks_line)) as [total_blocks|];
    cbn [mbind result_bind]; [|done].
  destruct (floordiv total_sectors total_blocks) as [sectors_per_block|];
    cbn [mbind result_bind]; [|done].
  destruct (float_of_int (total_sectors * 512)); cbn [mbind result_bind]; [|done].
  destruct (truediv (sectors_per_block * 512) 1024); cbn [mbind result_bind]; [|done].
  by rewrite Hperm.
Qed.

Lemma main_lines_order_witness :
  ["0 ok"; "2"; "1"] ≡ₚ ["1"; "0 ok"; "2"] ∧
  main "1000" "5" ["0 ok"; "2"; "1"] = main "1000" "5" ["1"; "0 ok"; "2"].
Proof.
  assert (["0 ok"; "2"; "1"] ≡ₚ ["1"; "0 ok"; "2"]) as H
    by (by rewrite (Permutation_app_comm ["0 ok"; "2"] ["1"])).
  split; [exact H|]. exact (main_lines_order "1000" "5" _ _ H).
Defined.

(** ** Numbers written with [str] and read with [int] *)

Section printed_numbers.
Implicit Types (s cur : string) (n : Z) (d : Decimal.uint) (blocks : list Z).

(** A negative number starts with the sign, which is no digit. *)
Lemma decimal_negative n : n < 0 → str_isdigit (decimal n) = false.
Proof. intros Hn. destruct n as [|p|p]; [lia..|done]. Qed.

Lemma decimal_numchar n : all_chars numchar (decimal n) = true.
Proof.
  assert (∀ d, all_chars numchar (NilZero.string_of_uint d) = true) as Hd.
  { intros d. destruct d; try done;
      apply (all_chars_impl isdecimal); try apply (uint_string_decimal (_ _));
      intros c Hc; unfold numchar; by rewrite Hc. }
  unfold decimal. destruct n as [|p|p]; [done|apply Hd|]. simpl. apply Hd.
Qed.

Lemma numchar_not_space (c : ascii) :
  numchar c = true → isspace c = false ∧ Ascii.eqb c LF = false.
Proof.
  destruct c as [[] [] [] [] [] [] [] []]; vm_compute; (discriminate || done).
Qed.

Lemma split_on_single s :
  all_chars numchar s = true → split_on LF s = [s].
Proof.
  induction s as [|c s IH]; simpl; [done|]. intros [Hc Hs]%andb_prop.
  destruct (numchar_not_space c Hc) as [_ ->]. by rewrite IH.
Qed.

Lemma split_go_single cur s :
  all_chars numchar s = true → cur +:+ s ≠ "" → split_go cur s = [cur +:+ s].
Proof.
  revert cur. induction s as [|c s IH]; intros cur.
  - intros _. rewrite string_app_nil_r. simpl. by destruct cur.
  - intros [Hc Hs]%andb_prop Hne. cbn [split_go].
    destruct (numchar_not_space c Hc) as [-> _].
    rewrite IH; [by rewrite string_app_assoc|done|].
    by rewrite string_app_assoc.
Qed.

Lemma first_token_decimal n : first_token (decimal n) = Some (decimal n).
Proof.
  unfold first_token, split. rewrite split_go_single; [done|apply decimal_numchar|].
  destruct (decimal_shape n) as (c & r & -> & _). done.
Qed.

Lemma token_number_decimal n :
  printable n →
  bad_token (decimal n) = false ∧
  token_number (decimal n) = if decide (0 ≤ n) then Some n else None.
Proof.
  intros Hp. unfold bad_token, token_number. case_decide as Hn.
  - destruct (decimal_nonneg n Hn) as (Hne & Hdec & Hint).
    rewrite Hdec, (Hint Hp). cbn [negb orb].
    assert (str_isdigit (decimal n) = true) as ->.
    { destruct (decimal n) as [|c s]; [done|]. unfold str_isdigit.
      apply (all_chars_impl isdecimal); [apply isdecimal_isdigit|done]. }
    split; [|done]. cbn [andb]. apply negb_false_iff, Nat.leb_le.
    unfold printable, num_digits in Hp. by rewrite Z.abs_eq in Hp.
  - by rewrite decimal_negative by lia.
Qed.

Lemma printed_tokens blocks :
  blocks ≠ [] →
  omap first_token (split_on LF (join newline (decimal <$> blocks))) = decimal <$> blocks.
Proof.
  intros Hne. rewrite split_on_join by (by destruct blocks).
  clear Hne. induction blocks as [|n blocks IH]; [done|].
  cbn [fmap list_fmap mbind list_bind]. rewrite split_on_single by apply decimal_numchar.
  cbn [app omap list_omap]. rewrite first_token_decimal. by rewrite IH.
Qed.

Lemma map_result_py_str blocks (texts : list string) :
  map_result py_str blocks = Ok texts ↔
  Forall printable blocks ∧ texts = decimal <$> blocks.
Proof.
  revert texts. induction blocks as [|n blocks IH]; intros texts; cbn [map_result].
  - split; [by intros [= <-]|by intros [_ ->]].
  - destruct (decide (printable n)) as [Hn|Hn];
      [rewrite (py_str_printable n Hn)|rewrite (py_str_not_printable n Hn)];
      cbn [mbind result_bind].
    + destruct (map_result py_str blocks) as [ys|e]; cbn [mbind result_bind].
      * destruct (IH ys) as [[Hb Hys] _]; [done|]. subst ys. split.
        -- intros [= <-]. split; [by constructor|done].
        -- by intros [_ ->].
      * split; [done|]. intros [[_ Hb]%Forall_cons ->].
        by pose proof (proj2 (IH _) (conj Hb eq_refl)).
    + split; [done|]. by intros [[? _]%Forall_cons _].
Qed.
End printed_numbers.

(** X14. Writing block numbers with [str], one per line, and parsing the
    text gives back the non-negative ones, sorted and without duplicates;
    a negative number is written with a sign and is skipped.  The numbers
    are those [str] accepts: [texts] is the list of their numerals. *)
Theorem parse_blocks_printed (blocks : list Z) (texts : list string) :
  map_result py_str blocks = Ok texts →
  parse_blocks (join newline texts)
    = Ok (sorted (set_of (filter (λ n, 0 ≤ n) blocks))).
Proof.
  intros [Hp ->]%map_result_py_str.
  destruct (decide (blocks = [])) as [->|Hne]; [done|].
  rewrite parse_blocks_first_tokens. cbn zeta. rewrite printed_tokens by done.
  assert (existsb bad_token (decimal <$> blocks) = false) as ->.
  { clear Hne. induction Hp as [|n blocks Hn Hp IH]; [done|].
    cbn [fmap list_fmap existsb]. by rewrite (proj1 (token_number_decimal n Hn)), IH. }
  do 3 f_equal. clear Hne. induction Hp as [|n blocks Hn Hp IH]; [done|].
  cbn [fmap list_fmap omap list_omap]. rewrite (proj2 (token_number_decimal n Hn)), IH.
  rewrite filter_cons. by case_decide.
Qed.

Lemma parse_blocks_printed_witness :
  map_result py_str [12; -3; 7; 12; 0] = Ok ["12"; "-3"; "7"; "12"; "0"] ∧
  parse_blocks (join newline ["12"; "-3"; "7"; "12"; "0"])
    = Ok (sorted (set_of (filter (λ n, 0 ≤ n) [12; -3; 7; 12; 0]))).
Proof.
  split; [reflexivity|].
  apply (parse_blocks_printed [12; -3; 7; 12; 0] ["12"; "-3"; "7"; "12"; "0"]).
  reflexivity.
Defined.

(** ** More on [main] *)

Section main_more.
Implicit Types (good bad : list Z) (total_sectors total_blocks spb b x : Z).

Lemma truediv_small (a : Z) :
  Z.abs a < float_limit → truediv a 1024 = Ok ().
Proof.
  intros Ha. unfold truediv. rewrite decide_False by done.
  rewrite decide_True; [done|]. pose proof float_limit_big. lia.
Qed.

Lemma badblocks_ext4_concat (rs : list (Z * Z)) :
  badblocks_ext4 rs = concat ((λ r, range_from r.1 (r.2 + 1)) <$> rs).
Proof.
  unfold badblocks_ext4.
  enough (∀ acc, foldl (λ written '(start, end_), written ++ range_from start (end_ + 1))
                   acc rs
                 = acc ++ concat ((λ r, range_from r.1 (r.2 + 1)) <$> rs)) as H by apply H.
  induction rs as [|[lo hi] rs IH]; intros acc; simpl.
  - by rewrite app_nil_r.
  - by rewrite IH, <-app_assoc.
Qed.

(** The sectors listed for the bad blocks: [sectors_per_block] sectors
    from [b * sectors_per_block] on, for each bad block [b]. *)
Lemma badblocks_ext4_blocks bad spb :
  badblocks_ext4 (sector_ranges_of bad spb)
    = concat ((λ b, seqZ (b * spb) spb) <$> bad).
Proof.
  rewrite badblocks_ext4_concat, sector_ranges_of_fmap, <-list_fmap_compose.
  f_equal. apply list_fmap_ext. intros _ b _.
  unfold range_from, sector_range, block_to_sector. simpl. f_equal. lia.
Qed.

Lemma elem_of_badblocks_ext4 bad spb x :
  x ∈ badblocks_ext4 (sector_ranges_of bad spb)
  ↔ ∃ b, b ∈ bad ∧ b * spb ≤ x < (b + 1) * spb.
Proof.
  rewrite badblocks_ext4_blocks, elem_of_concat. split.
  - intros (l & Hx & (b & -> & Hb)%list_elem_of_fmap).
    apply elem_of_seqZ in Hx. exists b. split; [done|lia].
  - intros (b & Hb & Hx). exists (seqZ (b * spb) spb). split.
    + apply elem_of_seqZ. lia.
    + apply list_elem_of_fmap. by exists b.
Qed.

Lemma block_of_sector spb b x :
  0 < spb → b * spb ≤ x < (b + 1) * spb ↔ x `div` spb = b.
Proof.
  intros Hspb. split.
  - intros Hx. symmetry. apply (Z.div_unique x spb b (x - b * spb)); lia.
  - intros <-. pose proof (Z.mul_div_le x spb Hspb).
    pose proof (Z.mul_succ_div_gt x spb Hspb). lia.
Qed.
(** The sector ranges of bad blocks lie inside the drive, and [str]
    accepts their ends when it accepts the number of sectors. *)
Lemma sector_ranges_printable good total_sectors total_blocks :
  0 ≤ total_sectors → 0 < total_blocks → printable total_sectors →
  Forall run_printable
    (sector_ranges_of (invert_blocks good total_blocks) (total_sectors `div` total_blocks)).
Proof.
  intros Hsec Hblk Hp. rewrite sector_ranges_of_fmap. apply Forall_fmap, Forall_forall.
  intros b [Hb _]%elem_of_invert_blocks.
  set (s := total_sectors `div` total_blocks).
  assert (0 ≤ s) as Hs0 by (apply Z.div_pos; lia).
  assert (total_blocks * s ≤ total_sectors) as Hs1 by (apply Z.mul_div_le; lia).
  unfold sector_range, block_to_sector. split; cbn [fst snd].
  - apply (printable_mono _ total_sectors); [nia|done].
  - destruct (decide (s = 0)) as [->|Hs].
    + apply printable_small. lia.
    + apply (printable_mono _ total_sectors); [nia|done].
Qed.
End main_more.

(** X15. With [0 <= total_sectors], [0 < total_blocks] and a drive size
    that prints as a float, the run of [main] up to the writing of the
    first two files raises nothing once the pasted text parses: it ends
    with "no valid blocks" when no good block was parsed, with "no bad
    blocks" when the inversion is empty, and otherwise it writes one line
    [b*s (b+1)*s-1] per bad block [b], where
    [s = total_sectors // total_blocks], and the range texts with their
    total.  The prompt that follows the two files is not part of this
    statement. *)
Theorem main_outcome (total_sectors_line total_blocks_line : string)
    (lines : list string) (total_sectors total_blocks : Z) (good : list Z) :
  strip total_sectors_line ≠ "" →
  py_int (strip total_sectors_line) = Ok total_sectors →
  (if strip total_blocks_line is "" then Ok 10000
   else py_int (strip total_blocks_line)) = Ok total_blocks →
  0 ≤ total_sectors → 0 < total_blocks →
  total_sectors * 512 < float_limit →
  parse_blocks (join newline lines) = Ok good →
  main total_sectors_line total_blocks_line lines =
    Ok (if good is [] then NoValidBlocks else
        let bad := invert_blocks good total_blocks in
        let s := total_sectors `div` total_blocks in
        if bad is [] then NoBadBlocks else
        Generated {|
          ntfsmarkbad_sectors_txt :=
            join "" ((λ b, decimal (b * s) +:+ " " +:+ decimal ((b + 1) * s - 1)
                           +:+ newline) <$> bad);
          bad_block_ranges_txt :=
            "Bad blocks: " +:+ join ", " (render <$> runs bad) +:+ newline
            +:+ newline +:+ "Total: " +:+ decimal (len bad) +:+ " bad blocks" +:+ newline
        |}).
Proof.
  intros Hne Hts Htb Hsec Hblk Hfloat Hgood. unfold main.
  destruct (strip total_sectors_line) as [|c r] eqn:Hs; [done|].
  rewrite Hts. cbn [mbind result_bind]. rewrite Htb. cbn [mbind result_bind].
  unfold floordiv. rewrite decide_False by lia. cbn [mbind result_bind].
  set (s := total_sectors `div` total_blocks).
  assert (0 ≤ s) as Hs0 by (apply Z.div_pos; lia).
  assert (total_blocks * s ≤ total_sectors) as Hs1 by (apply Z.mul_div_le; lia).
  unfold float_of_int. rewrite decide_True by lia. cbn [mbind result_bind].
  rewrite truediv_small by nia. cbn [mbind result_bind].
  rewrite Hgood. cbn [mbind result_bind]. destruct good as [|g good]; [done|].
  pose proof (truediv_invert_blocks (g :: good) total_blocks) as Htd.
  pose proof (len_invert_blocks (g :: good) total_blocks ltac:(lia)) as Hlen.
  destruct (invert_blocks_printable (g :: good) total_blocks) as [Hpb Hpl];
    [by eapply total_blocks_printable|].
  pose proof (sector_ranges_printable (g :: good) total_sectors total_blocks
                Hsec Hblk (py_int_printable _ _ Hts)) as Hsr.
  fold s in Hsr.
  destruct (invert_blocks (g :: good) total_blocks) as [|b bad]; [done|].
  rewrite truediv_small, Htd by (done || nia). cbn [mbind result_bind].
  rewrite create_ranges_printable by done. cbn [mbind result_bind].
  rewrite map_result_sector_line by done. cbn [mbind result_bind].
  rewrite py_str_printable by done. cbn [mbind result_bind].
  by rewrite sector_ranges_of_fmap, <-list_fmap_compose.
Qed.

Lemma main_outcome_witness :
  strip "1000" ≠ "" ∧
  py_int (strip "1000") = Ok 1000 ∧
  (if strip "10" is "" then Ok 10000 else py_int (strip "10")) = Ok 10 ∧
  0 ≤ 1000 ∧ 0 < 10 ∧
  1000 * 512 < float_limit ∧
  parse_blocks (join newline ["0"; "1"; "2"; "5"; "6"; "7"; "8"; "9"])
    = Ok [0; 1; 2; 5; 6; 7; 8; 9] ∧
  main "1000" "10" ["0"; "1"; "2"; "5"; "6"; "7"; "8"; "9"] =
    Ok (Generated {|
      ntfsmarkbad_sectors_txt := "300 399" +:+ newline +:+ "400 499" +:+ newline;
      bad_block_ranges_txt :=
        "Bad blocks: 3-4" +:+ newline +:+ newline +:+ "Total: 2 bad blocks" +:+ newline
    |}).
Proof.
  assert (strip "1000" ≠ "") as H by (vm_compute; discriminate).
  split_and!; [exact H|reflexivity|reflexivity|lia|lia|reflexivity|reflexivity|].
  exact (main_outcome "1000" "10" ["0"; "1"; "2"; "5"; "6"; "7"; "8"; "9"]
           1000 10 [0; 1; 2; 5; 6; 7; 8; 9] H eq_refl eq_refl
           ltac:(lia) ltac:(lia) eq_refl eq_refl).
Defined.

(** X16. A total of zero blocks makes [main] raise [ZeroDivisionError],
    whatever was pasted and before any of it is parsed. *)
Theorem main_zero_blocks (total_sectors_line total_blocks_line : string)
    (lines : list string) (total_sectors : Z) :
  strip total_sectors_line ≠ "" →
  py_int (strip total_sectors_line) = Ok total_sectors →
  strip total_blocks_line ≠ "" →
  py_int (strip total_blocks_line) = Ok 0 →
  main total_sectors_line total_blocks_line lines = Raise ZeroDivisionError.
Proof.
  intros Hne Hts Hne' Htb. unfold main.
  destruct (strip total_sectors_line) as [|c r]; [done|].
  rewrite Hts. cbn [mbind result_bind].
  destruct (strip total_blocks_line) as [|c' r']; [done|].
  rewrite Htb. done.
Qed.

Lemma main_zero_blocks_witness :
  strip "1000" ≠ "" ∧ py_int (strip "1000") = Ok 1000 ∧
  strip " 0 " ≠ "" ∧ py_int (strip " 0 ") = Ok 0 ∧
  main "1000" " 0 " ["0"; "x"] = Raise ZeroDivisionError.
Proof.
  assert (strip "1000" ≠ "") as H by (vm_compute; discriminate).
  assert (strip " 0 " ≠ "") as H' by (vm_compute; discriminate).
  split_and!; [exact H|reflexivity|exact H'|reflexivity|].
  exact (main_zero_blocks "1000" " 0 " ["0"; "x"] 1000 H eq_refl H' eq_refl).
Defined.

(** X17. With [0 <= total_sectors] and [0 < total_blocks] every sector
    range computed for a bad block lies inside the drive: it starts at
    [0] or later and ends before [total_sectors]; the sectors left over
    by the division are never marked. *)
Theorem sector_ranges_in_drive (good : list Z) (total_sectors total_blocks : Z) :
  0 ≤ total_sectors → 0 < total_blocks →
  Forall (λ r, 0 ≤ r.1 ∧ r.2 < total_sectors)
    (sector_ranges_of (invert_blocks good total_blocks)
                      (total_sectors `div` total_blocks)).
Proof.
  intros Hsec Hblk. rewrite sector_ranges_of_fmap. apply Forall_fmap, Forall_forall.
  intros b [Hb _]%elem_of_invert_blocks.
  unfold sector_range, block_to_sector. simpl.
  assert (0 ≤ total_sectors `div` total_blocks) by (apply Z.div_pos; lia).
  assert (total_blocks * (total_sectors `div` total_blocks) ≤ total_sectors)
    by (apply Z.mul_div_le; lia).
  nia.
Qed.

Lemma sector_ranges_in_drive_witness :
  0 ≤ 1005 ∧ 0 < 10 ∧
  Forall (λ r, 0 ≤ r.1 ∧ r.2 < 1005)
    (sector_ranges_of (invert_blocks [0; 1; 2] 10) (1005 `div` 10)).
Proof.
  split; [lia|]. split; [lia|].
  apply (sector_ranges_in_drive [0; 1; 2] 1005 10); lia.
Defined.

(** X18. For a scale [0 <= sectors_per_block] the sector ranges of the bad
    blocks are ascending and do not overlap: each ends before the next
    one, and any later one, starts. *)
Theorem sector_ranges_ordered (good : list Z) (total_blocks sectors_per_block : Z) :
  0 ≤ sectors_per_block →
  StronglySorted (λ r r' : Z * Z, r.2 < r'.1)
    (sector_ranges_of (invert_blocks good total_blocks) sectors_per_block).
Proof.
  intros Hs. rewrite sector_ranges_of_fmap.
  apply (StronglySorted_fmap _ Z.lt); [|apply invert_blocks_sorted].
  intros b b' Hb. unfold sector_range, block_to_sector. simpl. nia.
Qed.

Lemma sector_ranges_ordered_witness :
  0 ≤ 100 ∧
  StronglySorted (λ r r' : Z * Z, r.2 < r'.1)
    (sector_ranges_of (invert_blocks [1; 3] 5) 100).
Proof. split; [lia|]. apply (sector_ranges_ordered [1; 3] 5 100). lia. Defined.

(** X19. For a scale [0 < sectors_per_block] a sector is listed in
    [badblocks_ext4.txt] exactly when the block it belongs to,
    [sector // sectors_per_block], is in the universe and not good. *)
Theorem badblocks_ext4_sector (good : list Z) (total_blocks sectors_per_block x : Z) :
  0 < sectors_per_block →
  x ∈ badblocks_ext4
        (sector_ranges_of (invert_blocks good total_blocks) sectors_per_block)
  ↔ 0 ≤ x `div` sectors_per_block < total_blocks ∧ x `div` sectors_per_block ∉ good.
Proof.
  intros Hs. rewrite elem_of_badblocks_ext4. split.
  - intros (b & Hb%elem_of_invert_blocks & Hx%block_of_sector); [|done]. by subst b.
  - intros Hx. exists (x `div` sectors_per_block).
    split; [by apply elem_of_invert_blocks|]. by apply block_of_sector.
Qed.

Lemma badblocks_ext4_sector_witness :
  0 < 100 ∧
  (250 ∈ badblocks_ext4 (sector_ranges_of (invert_blocks [0; 1] 4) 100)
   ↔ 0 ≤ 250 `div` 100 < 4 ∧ 250 `div` 100 ∉ [0; 1]).
Proof. split; [lia|]. apply (badblocks_ext4_sector [0; 1] 4 100 250). lia. Defined.

(** X20. For a scale [0 <= sectors_per_block] the number of sectors listed
    in [badblocks_ext4.txt] is [len(bad_blocks) * sectors_per_block], the
    count [main] reports as bad sectors; with a scale of [0] nothing is
    listed. *)
Theorem badblocks_ext4_count (bad_blocks : list Z) (sectors_per_block : Z) :
  0 ≤ sectors_per_block →
  len (badblocks_ext4 (sector_ranges_of bad_blocks sectors_per_block))
    = len bad_blocks * sectors_per_block.
Proof.
  intros Hs. rewrite badblocks_ext4_blocks. unfold len.
  induction bad_blocks as [|b bad IH]; [done|].
  cbn [fmap list_fmap concat]. rewrite length_app, length_seqZ.
  cbn [length]. lia.
Qed.

Lemma badblocks_ext4_count_witness :
  0 ≤ 100 ∧ len (badblocks_ext4 (sector_ranges_of [3; 4] 100)) = len [3; 4] * 100.
Proof. split; [lia|]. apply (badblocks_ext4_count [3; 4] 100). lia. Defined.

(** X21. On a text without the superscript digits, in which no line
    starts with a token of more than [max_str_digits] (4300) characters,
    [parse_blocks] returns, and what it returns is non-negative.  The text
    is one of the characters up to U+00FF, on which [isdigit] and
    [isdecimal] differ by the three superscript digits only. *)
Theorem parse_blocks_plain (data : string) :
  all_chars plain data = true →
  Forall (λ line, ∀ t, first_token line = Some t →
                       (String.length t ≤ max_str_digits)%nat)
         (split_on LF (strip data)) →
  ∃ good, parse_blocks data = Ok good ∧ Forall (λ n, 0 ≤ n) good.
Proof.
  intros Hdata Hshort. rewrite parse_blocks_closed. cbn zeta.
  assert (Forall (λ line, all_chars plain line = true) (split_on LF (strip data)))
    as Hlines.
  { apply all_chars_split_on. unfold strip.
    by apply all_chars_rstrip, all_chars_lstrip. }
  assert (existsb bad_line (split_on LF (strip data)) = false) as ->.
  { induction Hlines as [|line lines Hline Hlines IH]; [done|].
    apply Forall_cons in Hshort as [Ht Hshort].
    cbn [existsb]. rewrite (IH Hshort), orb_false_r.
    unfold bad_line. destruct (first_token line) as [t|] eqn:Hfirst; [|done].
    unfold bad_token. destruct (str_isdigit t) eqn:Hdig; [|done]. cbn [andb].
    assert (all_chars plain t = true) as Hplain.
    { pose proof (all_chars_split_go plain "" line eq_refl Hline) as Hparts.
      fold (split line) in Hparts. unfold first_token in Hfirst.
      destruct (split line) as [|p0 parts]; [done|].
      injection Hfirst as <-. by apply Forall_cons in Hparts as [? _]. }
    assert (all_chars isdecimal t = true) as ->.
    { destruct t as [|c t]; [done|]. by apply isdigit_plain_decimal. }
    cbn [negb orb]. apply negb_false_iff, Nat.leb_le. by apply Ht. }
  eexists. split; [done|].
  apply Forall_forall. intros n Hn%elem_of_sorted.
  unfold set_of in Hn. apply elem_of_list_to_set, list_elem_of_omap in Hn.
  destruct Hn as (line & _ & Hn). by eapply line_number_nonneg.
Qed.

Lemma parse_blocks_plain_witness :
  all_chars plain ("12 ok" +:+ newline +:+ "-4" +:+ newline +:+ "3") = true ∧
  Forall (λ line, ∀ t, first_token line = Some t →
                       (String.length t ≤ max_str_digits)%nat)
         (split_on LF (strip ("12 ok" +:+ newline +:+ "-4" +:+ newline +:+ "3"))) ∧
  ∃ good, parse_blocks ("12 ok" +:+ newline +:+ "-4" +:+ newline +:+ "3") = Ok good
          ∧ Forall (λ n, 0 ≤ n) good.
Proof.
  assert (Forall (λ line, ∀ t, first_token line = Some t →
                               (String.length t ≤ max_str_digits)%nat)
            (split_on LF (strip ("12 ok" +:+ newline +:+ "-4" +:+ newline +:+ "3"))))
    as H.
  { change (Forall (λ line, ∀ t, first_token line = Some t →
                                 (String.length t ≤ max_str_digits)%nat)
              ["12 ok"; "-4"; "3"]).
    repeat (constructor;
      [intros t Ht; vm_compute in Ht; injection Ht as <-;
       apply (bool_decide_unpack _); by vm_compute|]).
    constructor. }
  split; [reflexivity|]. split; [exact H|].
  apply (parse_blocks_plain ("12 ok" +:+ newline +:+ "-4" +:+ newline +:+ "3"));
    [reflexivity|exact H].
Defined.

(** X22. For a scale [0 <= sectors_per_block] the sectors listed in
    [badblocks_ext4.txt] are strictly ascending: no sector is listed
    twice. *)
Theorem badblocks_ext4_ascending (good : list Z) (total_blocks sectors_per_block : Z) :
  0 ≤ sectors_per_block →
  StronglySorted Z.lt
    (badblocks_ext4
       (sector_ranges_of (invert_blocks good total_blocks) sectors_per_block)).
Proof.
  intros Hs. rewrite badblocks_ext4_blocks.
  pose proof (invert_blocks_sorted good total_blocks) as Hsorted.
  induction Hsorted as [|b bad Hbad IH Hb]; [constructor|].
  cbn [fmap list_fmap concat]. apply StronglySorted_app. split_and!.
  - intros x x' Hx%elem_of_seqZ (l & Hx' & (b' & -> & Hb')%list_elem_of_fmap)%elem_of_concat.
    apply elem_of_seqZ in Hx'. eapply Forall_forall in Hb; [|done]. nia.
  - apply range_lt_sorted.
  - apply IH.
Qed.

Lemma badblocks_ext4_ascending_witness :
  0 ≤ 3 ∧ StronglySorted Z.lt (badblocks_ext4 (sector_ranges_of (invert_blocks [1] 4) 3)).
Proof. split; [lia|]. apply (badblocks_ext4_ascending [1] 4 3). lia. Defined.

Section blank_answer.
Implicit Types (w : string).

Lemma strip_space w : all_chars isspace w = true → strip w = "".
Proof.
  intros Hw. unfold strip.
  assert (lstrip_with isspace w = "") as ->; [|done].
  induction w as [|c w IH]; simpl in *; [done|].
  apply andb_prop in Hw as [-> Hw]. by apply IH.
Qed.

Lemma set_of_sorted (s : gset Z) : set_of (sorted s) = s.
Proof.
  apply set_eq. intros x. unfold set_of. by rewrite elem_of_list_to_set, elem_of_sorted.
Qed.
End blank_answer.

(** X23. When the answer to the first prompt is empty or white space only,
    [main] stops with "total sectors required"; the second answer and the
    pasted lines are not looked at, and nothing is raised. *)
Theorem main_blank_total_sectors (total_sectors_line total_blocks_line : string)
    (lines : list string) :
  all_chars isspace total_sectors_line = true →
  main total_sectors_line total_blocks_line lines = Ok TotalSectorsRequired.
Proof. intros Hw. unfold main. by rewrite strip_space. Qed.

Lemma main_blank_total_sectors_witness :
  all_chars isspace "   " = true ∧ main "   " "x" ["y"] = Ok TotalSectorsRequired.
Proof. split; [reflexivity|]. apply (main_blank_total_sectors "   " "x" ["y"]). reflexivity. Defined.

(** X24. Parsing two reports pasted one after the other gives the union of
    what each gives alone, sorted and without duplicates; pasting a report
    twice changes nothing. *)
Theorem parse_blocks_concat (data data' : string) (good good' : list Z) :
  parse_blocks data = Ok good → parse_blocks data' = Ok good' →
  parse_blocks (data +:+ newline +:+ data') = Ok (sorted (set_of good ∪ set_of good')).
Proof.
  rewrite !parse_blocks_first_tokens. cbn zeta.
  change (data +:+ newline +:+ data') with (data +:+ String LF data').
  rewrite split_on_app, omap_app, existsb_app.
  destruct (existsb bad_token (omap first_token (split_on LF data))); [done|].
  destruct (existsb bad_token (omap first_token (split_on LF data'))); [done|].
  intros [= <-] [= <-]. simpl. do 2 f_equal.
  rewrite !set_of_sorted, omap_app. unfold set_of. apply list_to_set_app_L.
Qed.

Lemma parse_blocks_concat_witness :
  parse_blocks ("5" +:+ newline +:+ "2") = Ok [2; 5] ∧
  parse_blocks ("9" +:+ newline +:+ "5") = Ok [5; 9] ∧
  parse_blocks (("5" +:+ newline +:+ "2") +:+ newline +:+ ("9" +:+ newline +:+ "5"))
    = Ok (sorted (set_of [2; 5] ∪ set_of [5; 9])).
Proof.
  split; [reflexivity|]. split; [reflexivity|].
  apply (parse_blocks_concat ("5" +:+ newline +:+ "2") ("9" +:+ newline +:+ "5")
           [2; 5] [5; 9]); reflexivity.
Defined.

(** X25. Further good blocks only remove bad ones: the bad blocks for
    [good ++ more] are those for [good] that are not in [more], in the
    same order. *)
Theorem invert_blocks_app (good more : list Z) (total_blocks : Z) :
  invert_blocks (good ++ more) total_blocks
    = filter (λ b, b ∉ more) (invert_blocks good total_blocks).
Proof.
  unfold invert_blocks. rewrite list_filter_filter.
  apply filter_ext_elem_of. intros b _. unfold set_of.
  rewrite !elem_of_list_to_set, elem_of_app. tauto.
Qed.
